(** * The flat-file record store of database.js

    A shallow embedding of the salon backend's data-access layer: the [db]
    object of database.js ([read], [write], [insert], [findById], [update],
    [delete]) and the initialisation loop that runs when the module loads.

    Modelling choices, all of them about the JavaScript runtime and the
    fs-extra library rather than about the store itself:

    - A JavaScript value that went through JSON is a [value]; objects are
      finite maps from property names to values (property order plays no
      role in the store).  [undefined] is not a JSON value: a property read
      yields an [option value] with [None] for [undefined].
    - Numbers are the integers (what [Date.now()] and the route layer's
      [parseInt] produce).  Fractions, NaN and the infinities have no
      [value]; a string that spells one of them converts to [NonInt], which
      is loosely equal to no integer.  Arithmetic is exact, so the model
      agrees with IEEE doubles on the safe integers.
    - Strings are 8-bit character strings; white space is the ASCII part of
      the StrWhiteSpace production.
    - A file is identified with what [readJsonSync] makes of it: the JSON
      document it parses to, or malformed text.  [writeJsonSync] followed by
      [readJsonSync] gives back the value written.
    - The clock is an input: every operation that reads the clock takes the
      readings as arguments.
    - Paths are relative to the module's directory ([__dirname]).
    - The file system fails only where the code makes it fail: a read of a
      missing or malformed file, a read or write through a name that has no
      path.  Full disks, permissions and crashes in the middle of a write
      are outside the model, and so are the [console.log] calls and
      [ensureDirSync].

    Beside the store, the development covers the id the route handlers of
    server.js hand to it ([parseInt] of the route parameter, module
    [Caller]), the login guard of the admin configuration script (module
    [Guard]) and the session, token and violation log of the admin pages'
    SecurityManager (module [Security]).  There the browser's storage is a
    map from key to text, and the clock, the random bytes and the browser's
    own texts are arguments. *)

From stdpp Require Import gmap strings list fin_maps.
From Stdlib Require Import ZArith Lia Ascii.

#[local] Open Scope string_scope.
#[local] Open Scope list_scope.
#[local] Open Scope Z_scope.
#[local] Set Warnings "-register-all".

(** ** JSON values *)

Inductive value : Type :=
| VNull
| VBool (b : bool)
| VNum (n : Z)
| VStr (s : string)
| VArr (l : list value)
| VObj (m : gmap string value).

(** A record, and any other JavaScript object literal, is a finite map. *)
Abbreviation obj := (gmap string value).

(** ** Exceptions *)

Inductive exn : Type :=
| TypeError     (* a property read on null, a call of a non-function, ... *)
| SyntaxError   (* JSON.parse on malformed text *)
| ENOENT.       (* a file that does not exist *)

Inductive result (A : Type) : Type :=
| Ok (a : A)
| Throw (e : exn).
Arguments Ok {A} a.
Arguments Throw {A} e.

#[global] Instance result_ret : MRet result := λ A a, Ok a.
#[global] Instance result_bind : MBind result := λ A B f r,
  match r with
  | Ok a => f a
  | Throw e => Throw e
  end.

(** ** Number and string conversions of the runtime *)

Module Conv.

(** What [ToNumber] makes of a string, as far as a comparison with an
    integer can tell. *)
Inductive numeric : Type :=
| Int (z : Z)
| NonInt.

Definition code (a : ascii) : Z := Z.of_nat (nat_of_ascii a).

(** StrWhiteSpaceChar, ASCII part: TAB, LF, VT, FF, CR, SP. *)
Definition is_ws (a : ascii) : bool :=
  let c := code a in ((9 <=? c) && (c <=? 13)) || (c =? 32).

Fixpoint trim_left (l : list ascii) : list ascii :=
  match l with
  | a :: l' => if is_ws a then trim_left l' else l
  | [] => []
  end.

Definition trim (l : list ascii) : list ascii :=
  reverse (trim_left (reverse (trim_left l))).

(** The value of a digit in the given base, [None] for any other
    character. *)
Definition digit_val (base : Z) (a : ascii) : option Z :=
  let c := code a in
  let d := if (48 <=? c) && (c <=? 57) then Some (c - 48)
           else if (97 <=? c) && (c <=? 102) then Some (c - 87)
           else if (65 <=? c) && (c <=? 70) then Some (c - 55)
           else None in
  match d with
  | Some v => if v <? base then Some v else None
  | None => None
  end.

(** The longest prefix of digits: its value on top of [acc], its length
    on top of [cnt], and what follows it. *)
Fixpoint read_digits (base acc : Z) (cnt : nat) (l : list ascii)
  : Z * nat * list ascii :=
  match l with
  | a :: l' =>
      match digit_val base a with
      | Some d => read_digits base (acc * base + d) (S cnt) l'
      | None => (acc, cnt, l)
      end
  | [] => (acc, cnt, [])
  end.

(** NonDecimalIntegerLiteral, after its prefix. *)
Definition parse_radix (base : Z) (l : list ascii) : numeric :=
  match read_digits base 0 0 l with
  | (v, S _, []) => Int v
  | _ => NonInt
  end.

(** DecimalDigits and nothing else. *)
Definition parse_all_digits (l : list ascii) : option Z :=
  match read_digits 10 0 0 l with
  | (v, S _, []) => Some v
  | _ => None
  end.

(** The character with the given code. *)
Definition is_char (c : Z) (a : ascii) : bool := code a =? c.

(** SignedInteger of an ExponentPart. *)
Definition parse_signed_integer (l : list ascii) : option Z :=
  match l with
  | a :: l' =>
      if is_char 43 a (* + *) then parse_all_digits l'
      else if is_char 45 a (* - *) then Z.opp <$> parse_all_digits l'
      else parse_all_digits l
  | [] => None
  end.

(** The mathematical value [m * 10 ^ e] when it is an integer. *)
Definition scale (m e : Z) : numeric :=
  if 0 <=? e then Int (m * 10 ^ e)
  else if m mod 10 ^ (- e) =? 0 then Int (m / 10 ^ (- e))
  else NonInt.

(** StrUnsignedDecimalLiteral: digits, an optional fraction, an optional
    exponent.  [Infinity] has no digits and comes out as [NonInt]. *)
Definition parse_unsigned_decimal (l : list ascii) : numeric :=
  let '(ip, ni, r1) := read_digits 10 0 0 l in
  let '(m, nf, r2) :=
    match r1 with
    | a :: r => if is_char 46 a (* . *) then read_digits 10 ip 0 r
                else (ip, O, r1)
    | [] => (ip, O, r1)
    end in
  match (ni + nf)%nat with
  | O => NonInt
  | S _ =>
      match r2 with
      | [] => scale m (- Z.of_nat nf)
      | a :: r3 =>
          if is_char 101 a || is_char 69 a (* e E *) then
            match parse_signed_integer r3 with
            | Some e => scale m (e - Z.of_nat nf)
            | None => NonInt
            end
          else NonInt
      end
  end.

(** StrDecimalLiteral: an optional sign in front. *)
Definition parse_decimal (l : list ascii) : numeric :=
  match l with
  | a :: l' =>
      if is_char 43 a (* + *) then parse_unsigned_decimal l'
      else if is_char 45 a (* - *) then
        match parse_unsigned_decimal l' with
        | Int z => Int (- z)
        | NonInt => NonInt
        end
      else parse_unsigned_decimal l
  | [] => NonInt
  end.

(** The base a NonDecimalIntegerLiteral announces, and its digits. *)
Definition radix_prefix (l : list ascii) : option (Z * list ascii) :=
  match l with
  | a :: p :: l' =>
      if is_char 48 a (* 0 *) then
        if is_char 120 p || is_char 88 p (* x X *) then Some (16, l')
        else if is_char 111 p || is_char 79 p (* o O *) then Some (8, l')
        else if is_char 98 p || is_char 66 p (* b B *) then Some (2, l')
        else None
      else None
  | _ => None
  end.

(** StringToNumber: the empty or blank string is 0. *)
Definition StringToNumber (s : string) : numeric :=
  match trim (String.list_ascii_of_string s) with
  | [] => Int 0
  | l =>
      match radix_prefix l with
      | Some (base, l') => parse_radix base l'
      | None => parse_decimal l
      end
  end.

Definition digit_char (d : Z) : ascii := ascii_of_nat (Z.to_nat (48 + d)).

(** The decimal digits of a non-negative integer, most significant
    first; [fuel] bounds the number of digits. *)
Fixpoint digits (fuel : nat) (n : Z) : list ascii :=
  match fuel with
  | O => [digit_char (n mod 10)]
  | S fuel' =>
      if n <? 10 then [digit_char n]
      else digits fuel' (n / 10) ++ [digit_char (n mod 10)]
  end.

(** Number::toString in radix 10, on the integers. *)
Definition NumberToString (n : Z) : string :=
  let d := digits (Z.to_nat (Z.log2 (Z.abs n))) (Z.abs n) in
  String.string_of_list_ascii (if n <? 0 then "-"%char :: d else d).

End Conv.

(** ** The operators and built-ins the store relies on *)

Module JS.
Import Conv.

(** [item.id]: a property read throws on null, finds nothing on the other
    primitives and on arrays, and looks the name up in an object. *)
Definition get_id (item : value) : result (option value) :=
  match item with
  | VNull => Throw TypeError
  | VObj m => Ok (m !! "id")
  | _ => Ok None
  end.

(** ToString of an object that came out of JSON.parse: an own [toString]
    property shadows Object.prototype.toString with something that cannot
    be called, and no other method yields a primitive. *)
Definition object_to_string (m : obj) : result string :=
  match m !! "toString" with
  | Some _ => Throw TypeError
  | None => Ok "[object Object]"
  end.

(** Array.prototype.join with the default separator; [element_to_string]
    is the text of one element: empty for null, ToString otherwise. *)
Fixpoint element_to_string (v : value) : result string :=
  match v with
  | VNull => Ok ""
  | VBool b => Ok (if b then "true" else "false")
  | VNum n => Ok (NumberToString n)
  | VStr s => Ok s
  | VArr l =>
      (fix join (l : list value) : result string :=
         match l with
         | [] => Ok ""
         | x :: l' =>
             s ← element_to_string x;
             match l' with
             | [] => Ok s
             | _ => r ← join l'; Ok (s +:+ "," +:+ r)
             end
         end) l
  | VObj m => object_to_string m
  end.

(** The operands of [==] once booleans have become numbers (steps 8, 9)
    and arrays and objects are kept for ToPrimitive. *)
Inductive operand : Type :=
| Nullish                   (* undefined or null *)
| Number (n : Z)
| Text (s : string)
| Object (v : value).       (* an array or an object *)

Definition operand_of (x : option value) : operand :=
  match x with
  | None | Some VNull => Nullish
  | Some (VBool b) => Number (if b then 1 else 0)
  | Some (VNum n) => Number n
  | Some (VStr s) => Text s
  | Some v => Object v
  end.

Definition number_equals (n : Z) (m : numeric) : bool :=
  match m with
  | Int z => n =? z
  | NonInt => false
  end.

(** IsLooselyEqual on two primitives, neither of them nullish. *)
Definition primitive_equal (x y : operand) : bool :=
  match x, y with
  | Number a, Number b => a =? b
  | Text a, Text b => bool_decide (a = b)
  | Number a, Text s | Text s, Number a => number_equals a (StringToNumber s)
  | _, _ => false
  end.

(** [x == y] where [x] was read from parsed JSON and [y] is an argument:
    two objects are never the same object; an object against a number or
    a string goes through ToPrimitive, which on these objects is their
    ToString. *)
Definition loosely_equal (x : option value) (y : value) : result bool :=
  match operand_of x, operand_of (Some y) with
  | Nullish, Nullish => Ok true
  | Nullish, _ | _, Nullish => Ok false
  | Object _, Object _ => Ok false
  | Object v, p => s ← element_to_string v; Ok (primitive_equal (Text s) p)
  | p, Object v => s ← element_to_string v; Ok (primitive_equal p (Text s))
  | p, q => Ok (primitive_equal p q)
  end.

(** The callback [item => item.id == id]. *)
Definition id_matches (id : value) (item : value) : result bool :=
  i ← get_id item; loosely_equal i id.

(** Array.prototype.find: the first element the callback accepts, in
    index order; [None] is undefined. *)
Fixpoint find (p : value → result bool) (l : list value)
  : result (option value) :=
  match l with
  | [] => Ok None
  | x :: l' => b ← p x; if b : bool then Ok (Some x) else find p l'
  end.

(** Array.prototype.findIndex, scanning from index [i]; -1 when the
    callback accepts no element. *)
Fixpoint findIndex_from (i : Z) (p : value → result bool) (l : list value)
  : result Z :=
  match l with
  | [] => Ok (-1)
  | x :: l' => b ← p x; if b : bool then Ok i else findIndex_from (i + 1) p l'
  end.

Definition findIndex := findIndex_from 0.

(** [data.splice(index, 1)] for an index in range. *)
Definition splice1 (index : Z) (data : list value) : list value :=
  delete (Z.to_nat index) data.

(** A method call on the outcome of [db.read]: only an array has [push],
    [find], [findIndex] and [splice]. *)
Definition as_array (data : value) : result (list value) :=
  match data with
  | VArr l => Ok l
  | _ => Throw TypeError
  end.

(** The own enumerable string-keyed properties an object spread copies:
    the fields of an object, the indices of an array or a string, nothing
    for undefined, null, numbers and booleans. *)
Definition indexed {A} (f : A → value) (l : list A) : obj :=
  list_to_map (imap (λ i x, (NumberToString (Z.of_nat i), f x)) l).

Definition spread (x : option value) : obj :=
  match x with
  | Some (VObj m) => m
  | Some (VArr l) => indexed id l
  | Some (VStr s) =>
      indexed (λ a, VStr (String a EmptyString)) (String.list_ascii_of_string s)
  | _ => ∅
  end.

End JS.

(** ** The file system and the store *)

(** What a file holds, as [readJsonSync] sees it. *)
Inductive content : Type :=
| Json (v : value)           (* text that parses to [v] *)
| Malformed (text : string). (* text that JSON.parse rejects *)

(** The files present, by path. *)
Abbreviation files := (gmap string content).

(** A store operation runs against the files and either returns a value
    and the files it leaves behind or throws.  No operation writes before
    the point where it can throw, so an exception carries no files. *)
Definition M (A : Type) : Type := files → result (A * files).

#[global] Instance M_ret : MRet M := λ A a fs, Ok (a, fs).
#[global] Instance M_bind : MBind M := λ A B f m fs,
  match m fs with
  | Ok (a, fs') => f a fs'
  | Throw e => Throw e
  end.

(** A computation without effects, inside an operation. *)
Definition lift {A} (r : result A) : M A := λ fs,
  match r with
  | Ok a => Ok (a, fs)
  | Throw e => Throw e
  end.

(** [try { body } catch (error) { handler }] *)
Definition try_catch {A} (body : M A) (handler : exn → M A) : M A := λ fs,
  match body fs with
  | Ok r => Ok r
  | Throw e => handler e fs
  end.

Module Fs.

(** [fs.existsSync] *)
Definition existsSync (file : string) : M bool := λ fs,
  Ok (bool_decide (is_Some (fs !! file)), fs).

(** [fs.readJsonSync]; the path is [None] when the caller passes
    something that is not a path. *)
Definition readJsonSync (file : option string) : M value := λ fs,
  match file with
  | None => Throw TypeError
  | Some p =>
      match fs !! p with
      | None => Throw ENOENT
      | Some (Malformed _) => Throw SyntaxError
      | Some (Json v) => Ok (v, fs)
      end
  end.

(** [fs.writeJsonSync]: the file is replaced as a whole. *)
Definition writeJsonSync (file : option string) (data : value) : M unit :=
  λ fs,
  match file with
  | None => Throw TypeError
  | Some p => Ok ((), <[p := Json data]> fs)
  end.

End Fs.

Module Db.
Import JS.

Definition dbPath : string := "data".

(** [path.join(dbPath, name)] *)
Definition join (dir name : string) : string := dir +:+ "/" +:+ name.

(** The [dbFiles] object, in the order of its keys. *)
Definition dbFiles_entries : list (string * string) :=
  [ ("admins", join dbPath "admins.json");
    ("products", join dbPath "products.json");
    ("services", join dbPath "services.json");
    ("bookings", join dbPath "bookings.json");
    ("gallery", join dbPath "gallery.json");
    ("videos", join dbPath "videos.json");
    ("profiles", join dbPath "profiles.json") ].

(** [dbFiles[table]]: a path for the seven table names; for any other
    name the lookup gives undefined or an inherited member of
    Object.prototype, neither of which is a path. *)
Definition dbFiles (table : string) : option string :=
  (list_to_map dbFiles_entries : gmap string string) !! table.

(** The initialisation loop,
    [Object.values(dbFiles).forEach(file => ...)]. *)
Definition init_file (file : string) : M unit :=
  present ← Fs.existsSync file;
  if present : bool then mret () else Fs.writeJsonSync (Some file) (VArr []).

Fixpoint forEach {A} (f : A → M unit) (l : list A) : M unit :=
  match l with
  | [] => mret ()
  | x :: l' => f x;; forEach f l'
  end.

Definition init : M unit := forEach init_file (dbFiles_entries.*2).

Definition read (table : string) : M value :=
  try_catch (Fs.readJsonSync (dbFiles table)) (λ _, mret (VArr [])).

Definition write (table : string) (data : value) : M unit :=
  Fs.writeJsonSync (dbFiles table) data.

(** [now] is what [Date.now()] returns and [iso] what
    [new Date().toISOString()] returns during the call.  The record
    returned is the caller's object after the two assignments. *)
Definition insert (now : Z) (iso : string) (table : string) (record : obj)
  : M obj :=
  data ← read table;
  let record := <["id" := VNum now]> record in
  let record := <["created_at" := VStr iso]> record in
  data ← lift (as_array data);
  let data := data ++ [VObj record] in
  write table (VArr data);;
  mret record.

(** [None] is undefined. *)
Definition findById (table : string) (id : value) : M (option value) :=
  data ← read table;
  data ← lift (as_array data);
  lift (find (id_matches id) data).

(** The object stored at [data[index]]. *)
Definition merged (iso : string) (item : option value) (updates : value)
  : obj :=
  <["updated_at" := VStr iso]> (spread (Some updates) ∪ spread item).

(** [VNull] is the [null] returned when no record matches. *)
Definition update (iso : string) (table : string) (id updates : value)
  : M value :=
  data ← read table;
  data ← lift (as_array data);
  index ← lift (findIndex (id_matches id) data);
  if index =? -1 then mret VNull
  else
    let i := Z.to_nat index in
    let data := <[i := VObj (merged iso (data !! i) updates)]> data in
    write table (VArr data);;
    mret (default VNull (data !! i)).

Definition delete (table : string) (id : value) : M bool :=
  data ← read table;
  data ← lift (as_array data);
  index ← lift (findIndex (id_matches id) data);
  if index =? -1 then mret false
  else
    let data := splice1 index data in
    write table (VArr data);;
    mret true.

End Db.

(** ** The store as the route handlers call it *)

(** The handlers of server.js pass [parseInt(req.params.id)] as the id:
    [db.findById(table, parseInt(id))], [db.update(table, parseInt(id),
    ...)], [db.delete(table, parseInt(id))].  What [parseInt] returns is a
    number that may be NaN, which is no JSON value, so the three operations
    are taken here at a number argument; at a finite number they are the
    operations of [Db]. *)
Module Caller.
Import Conv JS Db.

Inductive number : Type :=
| Finite (n : Z)
| NaN.

(** The steps of [parseInt(text)] without a radix.  A sign is read and
    dropped. *)
Definition strip_sign (s : list ascii) : bool * list ascii :=
  match s with
  | a :: s' =>
      if is_char 45 a (* - *) then (true, s')
      else if is_char 43 a (* + *) then (false, s')
      else (false, s)
  | [] => (false, s)
  end.

(** A [0x] or [0X] prefix selects base 16 and is dropped. *)
Definition strip_prefix (s : list ascii) : Z * list ascii :=
  match s with
  | a :: p :: s' =>
      if is_char 48 a && (is_char 120 p || is_char 88 p) then (16, s')
      else (10, s)
  | _ => (10, s)
  end.

(** The longest run of digits is the value; what follows it is ignored
    and no digit at all gives NaN. *)
Definition digit_run (negative : bool) (base : Z) (s : list ascii) : number :=
  match read_digits base 0 0 s with
  | (_, O, _) => NaN
  | (v, S _, _) => Finite (if negative then - v else v)
  end.

(** [parseInt(text)]: leading white space is skipped first. *)
Definition parseInt (text : string) : number :=
  let '(negative, s) :=
    strip_sign (trim_left (String.list_ascii_of_string text)) in
  let '(base, s) := strip_prefix s in
  digit_run negative base s.

(** The callback [item => item.id == id] when [id] is NaN: nothing equals
    NaN, but an id that is an array or an object is still converted to a
    primitive first, which can throw. *)
Definition nan_matches (item : value) : result bool :=
  i ← get_id item;
  match operand_of i with
  | Object v => _ ← element_to_string v; Ok false
  | _ => Ok false
  end.

Definition number_matches (id : number) : value → result bool :=
  match id with
  | Finite n => id_matches (VNum n)
  | NaN => nan_matches
  end.

(** [db.findById], [db.update] and [db.delete] with the scan callback
    made explicit. *)
Definition findById_by (p : value → result bool) (table : string)
  : M (option value) :=
  data ← read table;
  data ← lift (as_array data);
  lift (find p data).

Definition update_by (p : value → result bool) (iso table : string)
    (updates : value) : M value :=
  data ← read table;
  data ← lift (as_array data);
  index ← lift (findIndex p data);
  if index =? -1 then mret VNull
  else
    let i := Z.to_nat index in
    let data := <[i := VObj (merged iso (data !! i) updates)]> data in
    write table (VArr data);;
    mret (default VNull (data !! i)).

Definition delete_by (p : value → result bool) (table : string) : M bool :=
  data ← read table;
  data ← lift (as_array data);
  index ← lift (findIndex p data);
  if index =? -1 then mret false
  else
    let data := splice1 index data in
    write table (VArr data);;
    mret true.

(** [db.findById(table, parseInt(id))] and its two siblings, for the
    text [id] of the route parameter. *)
Definition findById_param (table id : string) : M (option value) :=
  findById_by (number_matches (parseInt id)) table.

Definition update_param (iso table id : string) (updates : value) : M value :=
  update_by (number_matches (parseInt id)) iso table updates.

Definition delete_param (table id : string) : M bool :=
  delete_by (number_matches (parseInt id)) table.

End Caller.

(** ** The admin pages' login guard (admin configuration script)

    The script keeps its state in the [loginAttempts] item of the
    browser's localStorage, as the JSON text of an object from address to
    [{count, lastAttempt}].  The item is taken here as what the three
    functions below write: absent, or such an object with integer fields.
    [Date.now()] is an argument. *)
Module Guard.
Import Conv.

Definition AUTHORIZED_EMAILS : list string :=
  [ "grantunuas@gmail.com"; "grantunua@gmail.com"; "grant.unua@gmail.com";
    "grantunua.s@gmail.com" ].

Definition MAX_LOGIN_ATTEMPTS : Z := 3.
Definition LOCKOUT_DURATION : Z := 15 * 60 * 1000.

(** String.prototype.toLowerCase, on the ASCII letters. *)
Definition lower (a : ascii) : ascii :=
  if (65 <=? code a) && (code a <=? 90)
  then ascii_of_nat (Z.to_nat (code a + 32)) else a.

Definition toLowerCase (s : string) : string :=
  String.string_of_list_ascii (lower <$> String.list_ascii_of_string s).

(** String.prototype.trim *)
Definition trim_string (s : string) : string :=
  String.string_of_list_ascii (trim (String.list_ascii_of_string s)).

Definition isAuthorizedEmail (email : string) : bool :=
  let normalizedEmail := trim_string (toLowerCase email) in
  bool_decide (normalizedEmail ∈ AUTHORIZED_EMAILS).

Record attempt : Type := Attempt { count : Z; lastAttempt : Z }.

(** The parsed item, and the item itself: [None] when localStorage has no
    [loginAttempts]. *)
Abbreviation attempts := (gmap string attempt).
Abbreviation item := (option (gmap string attempt)).

(** [JSON.parse(localStorage.getItem('loginAttempts') || '{}')] *)
Definition parse (stored : item) : attempts := default ∅ stored.

(** The members every object inherits from Object.prototype.  A lookup
    [attempts[email]] under one of these names, without an own property
    of that name, yields the inherited member, which is truthy and has no
    [count]. *)
Definition Object_prototype : list string :=
  [ "constructor"; "__defineGetter__"; "__defineSetter__"; "hasOwnProperty";
    "__lookupGetter__"; "__lookupSetter__"; "isPrototypeOf";
    "propertyIsEnumerable"; "toString"; "valueOf"; "__proto__";
    "toLocaleString" ].

Inductive property : Type :=
| Own (a : attempt)
| Inherited
| Undefined.

(** [attempts[email]] *)
Definition get (m : attempts) (email : string) : property :=
  match m !! email with
  | Some a => Own a
  | None => if bool_decide (email ∈ Object_prototype) then Inherited
            else Undefined
  end.

(** Returns whether a login may be tried, and the item it leaves. *)
Definition checkLoginAttempts (now : Z) (email : string) (stored : item)
  : bool * item :=
  let attempts := parse stored in
  match get attempts email with
  | Own userAttempts =>
      if MAX_LOGIN_ATTEMPTS <=? count userAttempts then
        let timeSinceLastAttempt := now - lastAttempt userAttempts in
        if timeSinceLastAttempt <? LOCKOUT_DURATION then (false, stored)
        else (true, Some (delete email attempts))
      else (true, stored)
  | Inherited | Undefined => (true, stored)
  end.

(** Under an inherited name the two assignments land on the inherited
    member, not in [attempts]; the item is written all the same. *)
Definition recordFailedLogin (now : Z) (email : string) (stored : item)
  : item :=
  let attempts := parse stored in
  Some match get attempts email with
       | Own a => <[email := Attempt (count a + 1) now]> attempts
       | Undefined => <[email := Attempt (0 + 1) now]> attempts
       | Inherited => attempts
       end.

Definition clearLoginAttempts (email : string) (stored : item) : item :=
  Some (delete email (parse stored)).

End Guard.

(** ** The SecurityManager class of the admin pages

    sessionStorage and localStorage are maps from key to text;
    [Date.now()], the random bytes, the browser's user agent and address
    and the text [JSON.stringify] makes of the admin data are arguments.
    The Cache API calls of [clearSession] are not modelled. *)
Module Security.
Import Conv Caller.

Record browser : Type := Browser {
  sessionStorage : gmap string string;
  localStorage : gmap string string
}.

Definition clearSession (b : browser) : browser :=
  Browser ∅ (delete "tempAuthData" (localStorage b)).

(** A text is falsy when it is null or empty. *)
Definition falsy (t : option string) : bool :=
  match t with
  | None | Some EmptyString => true
  | Some _ => false
  end.

(** [a > b] for a number [a] that may be NaN: false on NaN. *)
Definition greater (a : number) (b : Z) : bool :=
  match a with
  | Finite n => b <? n
  | NaN => false
  end.

(** [Date.now() - parseInt(loginTime)] *)
Definition elapsed (now : Z) (loginTime : string) : number :=
  match parseInt loginTime with
  | Finite t => Finite (now - t)
  | NaN => NaN
  end.

Definition validateSession (now : Z) (b : browser) : bool * browser :=
  let session := sessionStorage b !! "adminAuthenticated" in
  let loginTime := sessionStorage b !! "adminLoginTime" in
  if falsy session || negb (bool_decide (session = Some "true"))
  then (false, b)
  else if falsy loginTime then (false, b)
  else if greater (elapsed now (default "" loginTime)) 7200000
  then (false, clearSession b)
  else (true, b).

(** [token] is [None] when [generateSecureToken] throws; the fallback in
    the catch block then sets the same items but the token. *)
Definition createSecureSession (token : option string) (now : Z)
    (adminData : string) (b : browser) : browser :=
  let s := sessionStorage b in
  let s := <["adminAuthenticated" := "true"]> s in
  let s := match token with
           | Some t => <["securityToken" := t]> s
           | None => s
           end in
  let s := <["adminLoginTime" := NumberToString now]> s in
  let s := <["adminData" := adminData]> s in
  Browser s (localStorage b).

(** Number::toString(16) of a non-negative integer; [fuel] bounds the
    number of digits. *)
Definition hex_char (d : Z) : ascii :=
  ascii_of_nat (Z.to_nat (if d <? 10 then 48 + d else 87 + d)).

Fixpoint hex_digits (fuel : nat) (n : Z) : list ascii :=
  match fuel with
  | O => [hex_char (n mod 16)]
  | S fuel' =>
      if n <? 16 then [hex_char n]
      else hex_digits fuel' (n / 16) ++ [hex_char (n mod 16)]
  end.

Definition toString16 (n : Z) : list ascii :=
  hex_digits (Z.to_nat (Z.log2 n)) n.

(** [text.padStart(width, fill)] with a fill of one character. *)
Definition padStart (width : nat) (fill : ascii) (text : list ascii)
  : list ascii :=
  replicate (width - length text) fill ++ text.

(** [bytes] is the content of the Uint8Array after
    [crypto.getRandomValues]. *)
Definition generateSecureToken (bytes : list Z) : string :=
  String.string_of_list_ascii
    (mjoin ((λ byte, padStart 2 "0"%char (toString16 byte)) <$> bytes)).

(** The [securityViolations] item of localStorage: the log, or nothing. *)
Record violation : Type := Violation {
  type : string;
  timestamp : Z;
  userAgent : string;
  url : string
}.

(** [violations.filter(v => Date.now() - v.timestamp < 300000)], the
    clock being read once for each element: [clock i] is the reading at
    the element of index [i]. *)
Fixpoint recent_from (i : nat) (clock : nat → Z) (l : list violation)
  : list violation :=
  match l with
  | [] => []
  | v :: l' =>
      if clock i - timestamp v <? 300000
      then v :: recent_from (S i) clock l'
      else recent_from (S i) clock l'
  end.

(** Returns whether the page is sent back to the main site, and the log
    it leaves. *)
Definition handleSecurityViolation (kind : string) (now : Z)
    (agent href : string) (clock : nat → Z) (stored : option (list violation))
  : bool * option (list violation) :=
  let violations := default [] stored in
  let violations := violations ++ [Violation kind now agent href] in
  let violations :=
    if (50 <? length violations)%nat
    then drop (length violations - 50) violations
    else violations in
  ((3 <? length (recent_from 0 clock violations))%nat, Some violations).

End Security.

(** ** Notions the properties are stated with *)

Module Props.
Import Conv JS Db Guard Security.

(** How often [id] occurs in a table: the number of records the scan
    callback accepts, provided the callback evaluates on every record. *)
Fixpoint occurrences (id : value) (data : list value) : result nat :=
  match data with
  | [] => Ok O
  | item :: data' =>
      b ← id_matches id item;
      n ← occurrences id data';
      Ok (if b : bool then S n else n)
  end.

(** The callback rejects every record of [data]. *)
Definition no_match (id : value) (data : list value) : Prop :=
  Forall (λ item, id_matches id item = Ok false) data.

(** [item] is the first record of [data] whose id loosely equals [id]:
    the scan rejects everything before it. *)
Definition first_match (id : value) (data pre : list value) (item : value)
    (post : list value) : Prop :=
  data = pre ++ item :: post ∧ no_match id pre ∧
  id_matches id item = Ok true.

(** A record whose id is a number, as [insert] assigns it, or the decimal
    text of a number, as Number::toString prints it. *)
Definition has_plain_id (item : value) : Prop :=
  ∃ (m : obj) (n : Z),
    item = VObj m ∧
    (m !! "id" = Some (VNum n) ∨ m !! "id" = Some (VStr (NumberToString n))).

(** Every table file holds a JSON array. *)
Definition tables_are_arrays (fs : files) : Prop :=
  ∀ table file, dbFiles table = Some file →
    ∃ data, fs !! file = Some (Json (VArr data)).

(** Going from [fs] to [fs'], whatever was written is an array: every
    file is as it was or holds a JSON array. *)
Definition wrote_arrays_only (fs fs' : files) : Prop :=
  ∀ file, fs' !! file = fs !! file ∨
          ∃ data, fs' !! file = Some (Json (VArr data)).

(** A decimal digit. *)
Definition is_digit (a : ascii) : Prop := 48 ≤ code a ≤ 57.

(** The number a string of decimal digits spells, on top of [acc]. *)
Definition decimal_value (acc : Z) (l : list ascii) : Z :=
  fold_left (λ v a, v * 10 + (code a - 48)) l acc.

(** What a table reads as: the document its file parses to, the empty
    array when there is none. *)
Definition table_value (fs : files) (table : string) : value :=
  match dbFiles table with
  | Some file =>
      match fs !! file with
      | Some (Json v) => v
      | _ => VArr []
      end
  | None => VArr []
  end.

(** The record of the update example and what the update makes of it. *)
Definition record_A : obj :=
  {[ "id" := VNum 1; "name" := VStr "A"; "price" := VNum 10 ]}.

Definition record_A_updated (iso : string) : obj :=
  {[ "id" := VNum 1; "name" := VStr "A"; "price" := VNum 20;
     "updated_at" := VStr iso ]}.

(** The files the initialisation loop can create, all of them empty
    tables. *)
Definition empty_tables (l : list string) : files :=
  list_to_map ((λ file, (file, Json (VArr []))) <$> l).

(** The single-process model: the states of the files from the first start
    on a fresh storage location onwards.  A start runs the initialisation;
    between starts the files change through the store's operations only,
    [write] being called with an array; an operation that throws changes
    nothing. *)
Inductive reachable : files → Prop :=
| first_start fs fs' :
    (∀ table file, dbFiles table = Some file → fs !! file = None) →
    init fs = Ok ((), fs') → reachable fs'
| restart fs fs' :
    reachable fs → init fs = Ok ((), fs') → reachable fs'
| after_write fs fs' table data :
    reachable fs → write table (VArr data) fs = Ok ((), fs') → reachable fs'
| after_insert fs fs' now iso table record stored :
    reachable fs → insert now iso table record fs = Ok (stored, fs') →
    reachable fs'
| after_update fs fs' iso table id updates r :
    reachable fs → update iso table id updates fs = Ok (r, fs') →
    reachable fs'
| after_delete fs fs' table id b :
    reachable fs → delete table id fs = Ok (b, fs') → reachable fs'.

(** What an operation that completes has done to the files: nothing, or
    one table file replaced by an array. *)
Inductive array_write (table : string) (fs fs' : files) : Prop :=
| Untouched : fs' = fs → array_write table fs fs'
| Replaced file data :
    dbFiles table = Some file → fs' = <[file := Json (VArr data)]> fs →
    array_write table fs fs'.

(** A value that is neither an array nor an object. *)
Definition primitive (v : value) : Prop :=
  match v with
  | VArr _ | VObj _ => False
  | _ => True
  end.

(** A record whose id, if it has one, is a primitive. *)
Definition has_primitive_id (item : value) : Prop :=
  ∃ m : obj, item = VObj m ∧ from_option primitive True (m !! "id").

(** Text that cannot continue a decimal number nor turn a leading zero
    into a hexadecimal prefix: it is empty or starts with a character that
    is neither a digit nor [x] or [X]. *)
Definition ends_number (rest : list ascii) : Prop :=
  match rest with
  | a :: _ => digit_val 10 a = None ∧ is_char 120 a = false ∧
              is_char 88 a = false
  | [] => True
  end.

(** Failed logins recorded one after the other, at the given clock
    readings. *)
Definition record_failures (times : list Z) (email : string) (stored : item)
  : item :=
  foldl (λ st t, recordFailedLogin t email st) stored times.

(** The bytes a token spells, two hexadecimal digits each. *)
Fixpoint token_bytes (l : list ascii) : list Z :=
  match l with
  | a :: b :: l' =>
      (default 0 (digit_val 16 a) * 16 + default 0 (digit_val 16 b))
      :: token_bytes l'
  | _ => []
  end.

End Props.

(** ** Properties *)

Import Conv JS Db Props Caller Guard Security.

Section Scan.
Variable p : value → result bool.

Lemma findIndex_from_first (i : Z) (pre post : list value) (x : value) :
  Forall (λ y, p y = Ok false) pre → p x = Ok true →
  findIndex_from i p (pre ++ x :: post) = Ok (i + Z.of_nat (length pre)).
Proof.
  intros Hpre Hx. revert i.
  induction Hpre as [|y pre Hy _ IH]; intros i; simpl.
  - rewrite Hx. simpl. f_equal. lia.
  - rewrite Hy. simpl. rewrite IH. f_equal. lia.
Qed.

Lemma findIndex_from_none (i : Z) (l : list value) :
  Forall (λ y, p y = Ok false) l → findIndex_from i p l = Ok (-1).
Proof.
  intros Hl. revert i.
  induction Hl as [|y l Hy _ IH]; intros i; simpl; [done|].
  rewrite Hy. simpl. apply IH.
Qed.
End Scan.

Lemma findIndex_first id data pre item post :
  first_match id data pre item post →
  findIndex (id_matches id) data = Ok (Z.of_nat (length pre)).
Proof.
  intros (-> & Hpre & Hitem). unfold findIndex.
  by rewrite (findIndex_from_first _ 0 pre post item Hpre Hitem).
Qed.

Lemma read_table_value table fs : read table fs = Ok (table_value fs table, fs).
Proof.
  unfold read, try_catch, Fs.readJsonSync, table_value.
  destruct (dbFiles table) as [file|]; [|done].
  by destruct (fs !! file) as [[v|text]|].
Qed.

Lemma read_after_write table file data fs :
  dbFiles table = Some file →
  read table (<[file := Json data]> fs) = Ok (data, <[file := Json data]> fs).
Proof.
  intros Hf. rewrite read_table_value. unfold table_value.
  by rewrite Hf, lookup_insert_eq.
Qed.

(** A table that reads as a non-empty array has a file. *)
Lemma first_match_known table id data pre item post fs :
  read table fs = Ok (VArr data, fs) → first_match id data pre item post →
  ∃ file, dbFiles table = Some file.
Proof.
  rewrite read_table_value. unfold table_value. intros Hr (-> & _).
  destruct (dbFiles table) as [file|]; [by exists file|].
  injection Hr as Hr. by destruct pre.
Qed.

Lemma insert_ok now iso table file record data fs :
  dbFiles table = Some file →
  read table fs = Ok (VArr data, fs) →
  let stored := <["created_at" := VStr iso]> (<["id" := VNum now]> record) in
  insert now iso table record fs =
    Ok (stored, <[file := Json (VArr (data ++ [VObj stored]))]> fs).
Proof.
  intros Hf Hr. unfold insert, mbind, M_bind. rewrite Hr. simpl.
  unfold write, Fs.writeJsonSync. by rewrite Hf.
Qed.

(** *** The runtime conversions on examples *)

Example StringToNumber_plain : StringToNumber "42" = Int 42.
Proof. reflexivity. Qed.

Example StringToNumber_leading_zero : StringToNumber "042" = Int 42.
Proof. reflexivity. Qed.

Example StringToNumber_blank : StringToNumber "  " = Int 0.
Proof. reflexivity. Qed.

Example StringToNumber_padded : StringToNumber " 42 " = Int 42.
Proof. reflexivity. Qed.

Example StringToNumber_exponent : StringToNumber "4.2e1" = Int 42.
Proof. reflexivity. Qed.

Example StringToNumber_hex : StringToNumber "0x2A" = Int 42.
Proof. reflexivity. Qed.

Example StringToNumber_fraction : StringToNumber "42.5" = NonInt.
Proof. reflexivity. Qed.

Example StringToNumber_signed_hex : StringToNumber "-0x2A" = NonInt.
Proof. reflexivity. Qed.

Example StringToNumber_words : StringToNumber "forty-two" = NonInt.
Proof. reflexivity. Qed.

Example NumberToString_clock : NumberToString 1700000000000 = "1700000000000".
Proof. reflexivity. Qed.

Example NumberToString_negative : NumberToString (-305) = "-305".
Proof. reflexivity. Qed.

Example loosely_equal_undefined_null : loosely_equal None VNull = Ok true.
Proof. reflexivity. Qed.

Example loosely_equal_null_zero : loosely_equal (Some VNull) (VNum 0) = Ok false.
Proof. reflexivity. Qed.

Example loosely_equal_true_one :
  loosely_equal (Some (VBool true)) (VStr "1") = Ok true.
Proof. reflexivity. Qed.

Example loosely_equal_texts :
  loosely_equal (Some (VStr "042")) (VStr "42") = Ok false.
Proof. reflexivity. Qed.

Example loosely_equal_array :
  loosely_equal (Some (VArr [VNum 42])) (VStr "42") = Ok true.
Proof. reflexivity. Qed.

Example loosely_equal_nested_array :
  loosely_equal (Some (VArr [VNull; VArr [VNum 1; VBool false]]))
    (VStr ",1,false") = Ok true.
Proof. reflexivity. Qed.

Example loosely_equal_object :
  loosely_equal (Some (VObj {[ "a" := VNum 1 ]})) (VStr "[object Object]")
  = Ok true.
Proof. reflexivity. Qed.

Example loosely_equal_shadowed_toString :
  loosely_equal (Some (VObj {[ "toString" := VNum 1 ]})) (VNum 1)
  = Throw TypeError.
Proof. reflexivity. Qed.

Example id_matches_null_item : id_matches (VNum 1) VNull = Throw TypeError.
Proof. reflexivity. Qed.

(** *** Printing a number and reading it back *)

Lemma code_digit_char d : 0 ≤ d < 10 → code (digit_char d) = 48 + d.
Proof.
  intros Hd. unfold code, digit_char.
  rewrite nat_ascii_embedding by lia. lia.
Qed.

Lemma digit_char_is_digit d : 0 ≤ d < 10 → is_digit (digit_char d).
Proof. intros Hd. unfold is_digit. rewrite code_digit_char by done. lia. Qed.

Lemma digit_val_10 a : is_digit a → digit_val 10 a = Some (code a - 48).
Proof.
  intros [Hlo Hhi]. unfold digit_val.
  rewrite (proj2 (Z.leb_le 48 (code a)) Hlo).
  rewrite (proj2 (Z.leb_le (code a) 57) Hhi). simpl.
  by rewrite (proj2 (Z.ltb_lt (code a - 48) 10)) by lia.
Qed.

Lemma is_digit_not_char c a : is_digit a → ¬ 48 ≤ c ≤ 57 → is_char c a = false.
Proof. intros Ha Hc. unfold is_digit in Ha. apply Z.eqb_neq. lia. Qed.

Lemma is_digit_not_ws a : is_digit a → is_ws a = false.
Proof.
  intros [Hlo Hhi]. unfold is_ws.
  rewrite (proj2 (Z.leb_gt (code a) 13)) by lia.
  rewrite (proj2 (Z.eqb_neq (code a) 32)) by lia.
  by rewrite andb_false_r.
Qed.

Lemma read_digits_app acc cnt l1 l2 :
  Forall is_digit l1 →
  read_digits 10 acc cnt (l1 ++ l2)
  = read_digits 10 (decimal_value acc l1) (cnt + length l1) l2.
Proof.
  intros Hl1. revert acc cnt.
  induction Hl1 as [|a l1 Ha _ IH]; intros acc cnt; simpl.
  - by rewrite Nat.add_0_r.
  - rewrite digit_val_10 by done. rewrite IH. f_equal. lia.
Qed.

Lemma digits_spec fuel n :
  0 ≤ n < 2 ^ (Z.of_nat fuel + 1) →
  Forall is_digit (digits fuel n) ∧ decimal_value 0 (digits fuel n) = n ∧
  digits fuel n ≠ [].
Proof.
  revert n. induction fuel as [|fuel IH]; intros n Hn.
  - assert (n mod 10 = n) as Hmod by (apply Z.mod_small; simpl in Hn; lia).
    simpl. rewrite Hmod. split; [|split; [|done]].
    + constructor; [|constructor]. apply digit_char_is_digit. simpl in Hn. lia.
    + unfold decimal_value. simpl. rewrite code_digit_char; simpl in Hn; lia.
  - simpl. destruct (Z.ltb_spec n 10) as [Hsmall|Hbig].
    + split; [|split; [|done]].
      * constructor; [|constructor]. apply digit_char_is_digit. lia.
      * unfold decimal_value. simpl. rewrite code_digit_char; lia.
    + destruct (IH (n / 10)) as (Hall & Hval & _).
      { split; [apply Z.div_pos; lia|].
        apply Z.div_lt_upper_bound; [lia|].
        replace (Z.of_nat (S fuel) + 1) with (Z.succ (Z.of_nat fuel + 1))
          in Hn by lia.
        rewrite Z.pow_succ_r in Hn by lia. lia. }
      pose proof (Z.mod_pos_bound n 10 ltac:(lia)) as Hmod.
      split; [|split].
      * apply Forall_app. split; [done|].
        constructor; [|constructor]. by apply digit_char_is_digit.
      * unfold decimal_value in *. rewrite fold_left_app, Hval. simpl.
        rewrite code_digit_char by done.
        pose proof (Z.div_mod n 10 ltac:(lia)). lia.
      * by destruct (digits fuel (n / 10)).
Qed.

Lemma trim_no_ws l : Forall (λ a, is_ws a = false) l → trim l = l.
Proof.
  intros Hl. unfold trim.
  assert (∀ k, Forall (λ a, is_ws a = false) k → trim_left k = k) as Hleft.
  { intros k Hk. destruct Hk as [|a k Ha _]; simpl; [done|]. by rewrite Ha. }
  rewrite (Hleft l Hl), Hleft by by apply Forall_reverse.
  apply reverse_involutive.
Qed.

Lemma radix_prefix_decimal a l :
  is_char 48 a = false ∨ Forall is_digit l → radix_prefix (a :: l) = None.
Proof.
  intros H. unfold radix_prefix. destruct l as [|p l]; [done|].
  destruct (is_char 48 a) eqn:Ha; [|done].
  destruct H as [H|H]; [done|]. apply Forall_cons in H as [Hp _].
  by rewrite !(is_digit_not_char _ p Hp) by lia.
Qed.

Lemma parse_unsigned_decimal_digits l :
  Forall is_digit l → l ≠ [] →
  parse_unsigned_decimal l = Int (decimal_value 0 l).
Proof.
  intros Hl Hne. unfold parse_unsigned_decimal.
  rewrite <- (app_nil_r l) at 1. rewrite read_digits_app by done. simpl.
  destruct l as [|a l]; [done|]. simpl.
  unfold scale. simpl. f_equal. lia.
Qed.

Lemma parse_decimal_digits l :
  Forall is_digit l → l ≠ [] → parse_decimal l = Int (decimal_value 0 l).
Proof.
  intros Hl Hne. rewrite <- parse_unsigned_decimal_digits by done.
  destruct Hl as [|a l Ha Hl]; [done|]. unfold parse_decimal.
  by rewrite !(is_digit_not_char _ a Ha) by lia.
Qed.

(** StringToNumber undoes Number::toString. *)
Lemma StringToNumber_NumberToString n :
  StringToNumber (NumberToString n) = Int n.
Proof.
  unfold StringToNumber, NumberToString.
  rewrite String.list_ascii_of_string_of_list_ascii.
  destruct (digits_spec (Z.to_nat (Z.log2 (Z.abs n))) (Z.abs n))
    as (Hall & Hval & Hne).
  { split; [lia|]. rewrite Z2Nat.id by apply Z.log2_nonneg.
    destruct (decide (Z.abs n = 0)) as [->|]; [done|].
    apply Z.log2_spec. lia. }
  set (d := digits _ _) in *.
  assert (Forall (λ a, is_ws a = false) d) as Hws
    by (eapply Forall_impl; [done|apply is_digit_not_ws]).
  destruct (Z.ltb_spec n 0) as [Hneg|Hpos].
  - rewrite trim_no_ws by by constructor.
    rewrite radix_prefix_decimal by by left.
    unfold parse_decimal.
    change (is_char 43 "-") with false. change (is_char 45 "-") with true.
    simpl. rewrite parse_unsigned_decimal_digits, Hval by done. f_equal. lia.
  - rewrite trim_no_ws by done. clearbody d.
    destruct d as [|a rest]; [done|].
    rewrite radix_prefix_decimal by (right; by eapply Forall_cons).
    rewrite parse_decimal_digits, Hval by done. f_equal. lia.
Qed.

(** *** Reading a table *)

(** C2: [read] returns the parsed document of the table's file when the
    file parses (the JSON array, for a table file), and the empty array,
    without throwing, when the file holds malformed JSON, when it is
    missing, when the name has no file at all, and whatever else
    [readJsonSync] throws; it never writes. *)
Theorem read_parsed_or_empty (table : string) (fs : files) :
  (∀ file v, dbFiles table = Some file → fs !! file = Some (Json v) →
     read table fs = Ok (v, fs)) ∧
  (∀ file text, dbFiles table = Some file →
     fs !! file = Some (Malformed text) → read table fs = Ok (VArr [], fs)) ∧
  (∀ file, dbFiles table = Some file → fs !! file = None →
     read table fs = Ok (VArr [], fs)) ∧
  (dbFiles table = None → read table fs = Ok (VArr [], fs)) ∧
  (∀ e, Fs.readJsonSync (dbFiles table) fs = Throw e →
     read table fs = Ok (VArr [], fs)) ∧
  (∃ v, read table fs = Ok (v, fs)).
Proof.
  split; [|split; [|split; [|split; [|split]]]].
  - intros file v Hf Hv. rewrite read_table_value. unfold table_value.
    by rewrite Hf, Hv.
  - intros file text Hf Hv. rewrite read_table_value. unfold table_value.
    by rewrite Hf, Hv.
  - intros file Hf Hv. rewrite read_table_value. unfold table_value.
    by rewrite Hf, Hv.
  - intros Hf. rewrite read_table_value. unfold table_value. by rewrite Hf.
  - intros e He. unfold read, try_catch. by rewrite He.
  - rewrite read_table_value. eauto.
Qed.

Lemma read_parsed_or_empty_witness :
  let products := "data/products.json" in
  let rows := VArr [VObj {[ "id" := VNum 7 ]}] in
  read "products" {[ products := Json rows ]}
    = Ok (rows, {[ products := Json rows ]}) ∧
  read "products" {[ products := Malformed "[{" ]}
    = Ok (VArr [], {[ products := Malformed "[{" ]}) ∧
  read "products" ∅ = Ok (VArr [], ∅) ∧
  read "orders" ∅ = Ok (VArr [], ∅).
Proof.
  intros products rows. split; [|split; [|split]].
  - destruct (read_parsed_or_empty "products" {[ products := Json rows ]})
      as (H & _). apply (H products); reflexivity.
  - destruct (read_parsed_or_empty "products"
                {[ products := Malformed "[{" ]}) as (_ & H & _).
    apply (H products "[{"); reflexivity.
  - destruct (read_parsed_or_empty "products" ∅) as (_ & _ & H & _).
    apply (H products); reflexivity.
  - destruct (read_parsed_or_empty "orders" ∅) as (_ & _ & _ & _ & H & _).
    apply (H TypeError); reflexivity.
Defined.

(** *** Inserting a record *)

(** C6: on a table that has a file and reads as an array, [insert]
    returns the record with [id] set to the clock's millisecond reading and
    [created_at] to the clock's ISO text; an [id] the caller put on the
    record is overwritten, so the returned id is never a caller-chosen
    value other than the clock's. *)
Theorem insert_assigns_id_and_created_at
    (now : Z) (iso table : string) (record : obj) (data : list value)
    (fs : files) :
  is_Some (dbFiles table) →
  read table fs = Ok (VArr data, fs) →
  ∃ stored fs',
    insert now iso table record fs = Ok (stored, fs') ∧
    stored !! "id" = Some (VNum now) ∧
    stored !! "created_at" = Some (VStr iso) ∧
    (∀ v, record !! "id" = Some v → v ≠ VNum now → stored !! "id" ≠ Some v).
Proof.
  intros [file Hf] Hr. eexists _, _. split.
  - by apply insert_ok.
  - rewrite lookup_insert_ne by done. rewrite !lookup_insert_eq.
    repeat split. intros v _ Hv. congruence.
Qed.

Lemma insert_assigns_id_and_created_at_witness :
  ∃ stored fs',
    insert 1700000000000 "2023-11-14T22:13:20.000Z" "services"
      {[ "id" := VNum 5; "name" := VStr "Braids" ]} ∅ = Ok (stored, fs') ∧
    stored !! "id" = Some (VNum 1700000000000) ∧
    stored !! "created_at" = Some (VStr "2023-11-14T22:13:20.000Z") ∧
    (∀ v, ({[ "id" := VNum 5; "name" := VStr "Braids" ]} : obj) !! "id"
            = Some v →
          v ≠ VNum 1700000000000 → stored !! "id" ≠ Some v).
Proof.
  apply (insert_assigns_id_and_created_at _ _ "services" _ []).
  - exists "data/services.json". reflexivity.
  - reflexivity.
Defined.

(** C1, amended: on a table that has a file and reads as an array, the
    table read after an insert ends with the record [insert] returned: the
    input with [id] and [created_at] set by the store and every field of
    the caller other than [id] and [created_at] unchanged. *)
Theorem insert_then_read
    (now : Z) (iso table : string) (record : obj) (data : list value)
    (fs : files) :
  is_Some (dbFiles table) →
  read table fs = Ok (VArr data, fs) →
  ∃ stored fs' data',
    insert now iso table record fs = Ok (stored, fs') ∧
    read table fs' = Ok (VArr data', fs') ∧
    last data' = Some (VObj stored) ∧
    stored = <["created_at" := VStr iso]> (<["id" := VNum now]> record) ∧
    (∀ field, field ≠ "id" → field ≠ "created_at" →
       stored !! field = record !! field).
Proof.
  intros [file Hf] Hr. eexists _, _, _. split; [by apply insert_ok|].
  split; [by apply read_after_write|].
  split; [apply last_snoc|]. split; [done|].
  intros field Hid Hcreated. by rewrite !lookup_insert_ne.
Qed.

Lemma insert_then_read_witness :
  ∃ stored fs' data',
    insert 1700000000000 "2023-11-14T22:13:20.000Z" "gallery"
      {[ "title" := VStr "Bridal" ]} ∅ = Ok (stored, fs') ∧
    read "gallery" fs' = Ok (VArr data', fs') ∧
    last data' = Some (VObj stored) ∧
    stored = <["created_at" := VStr "2023-11-14T22:13:20.000Z"]>
               (<["id" := VNum 1700000000000]> {[ "title" := VStr "Bridal" ]}) ∧
    (∀ field, field ≠ "id" → field ≠ "created_at" →
       stored !! field = ({[ "title" := VStr "Bridal" ]} : obj) !! field).
Proof.
  apply (insert_then_read _ _ "gallery" _ []).
  - exists "data/gallery.json". reflexivity.
  - reflexivity.
Defined.

(** C1 as stated fails: a [created_at] the caller put on the record is a
    field other than [id], and what the table holds afterwards is the
    store's timestamp, not the caller's value. *)
Lemma insert_then_read_created_at_overwritten :
  let record : obj :=
    {[ "title" := VStr "Bridal";
       "created_at" := VStr "2020-01-01T00:00:00.000Z" ]} in
  ∃ stored fs',
    insert 1700000000000 "2023-11-14T22:13:20.000Z" "gallery" record ∅
      = Ok (stored, fs') ∧
    read "gallery" fs' = Ok (VArr [VObj stored], fs') ∧
    record !! "created_at" = Some (VStr "2020-01-01T00:00:00.000Z") ∧
    stored !! "created_at" = Some (VStr "2023-11-14T22:13:20.000Z") ∧
    ¬ (∀ field, field ≠ "id" → is_Some (record !! field) →
         stored !! field = record !! field).
Proof.
  intros record. eexists _, _.
  split; [by apply (insert_ok _ _ "gallery" "data/gallery.json" record [] ∅)|].
  split; [by apply read_after_write|].
  split; [reflexivity|]. rewrite lookup_insert_eq. split; [done|].
  intros Hkept. specialize (Hkept "created_at").
  rewrite lookup_insert_eq in Hkept.
  change (record !! "created_at")
    with (Some (VStr "2020-01-01T00:00:00.000Z")) in Hkept.
  by discriminate Hkept.
Qed.

(** *** Scanning for an id *)

Lemma occurrences_zero id data :
  occurrences id data = Ok O → no_match id data.
Proof.
  induction data as [|item data IH]; simpl; [constructor|].
  destruct (id_matches id item) as [[]|e] eqn:Hitem; simpl; [| |done];
    destruct (occurrences id data) as [n|e]; simpl; try done.
  intros [= ->]. constructor; [done|]. by apply IH.
Qed.

Lemma occurrences_one id data :
  occurrences id data = Ok 1%nat →
  ∃ pre item post, first_match id data pre item post ∧ no_match id post.
Proof.
  induction data as [|item data IH]; simpl; [done|].
  destruct (id_matches id item) as [[]|e] eqn:Hitem; simpl; [| |done];
    destruct (occurrences id data) as [n|e] eqn:Hn; simpl; try done.
  - intros [= ->]. exists [], item, data.
    split; [by repeat split; try constructor|]. by apply occurrences_zero.
  - intros [= ->]. destruct IH as (pre & x & post & (-> & Hpre & Hx) & Hpost);
      [done|].
    exists (item :: pre), x, post.
    split; [|done]. split; [done|]. split; [by constructor|done].
Qed.

Section Table.
Variables (table file : string) (data : list value) (fs : files).
Hypothesis Hfile : dbFiles table = Some file.
Hypothesis Hread : read table fs = Ok (VArr data, fs).

Lemma update_first iso id updates pre item post :
  first_match id data pre item post →
  let stored := VObj (merged iso (Some item) updates) in
  update iso table id updates fs =
    Ok (stored, <[file := Json (VArr (pre ++ stored :: post))]> fs).
Proof using Hfile Hread.
  intros Hfirst. pose proof Hfirst as (-> & Hpre & Hitem).
  unfold update, mbind, M_bind. rewrite Hread. simpl.
  rewrite (findIndex_first _ _ _ _ _ Hfirst). simpl.
  destruct (Z.eqb_spec (Z.of_nat (length pre)) (-1)) as [?|_]; [lia|].
  rewrite Nat2Z.id, (list_lookup_middle pre post item) by done.
  replace (<[length pre := _]> (pre ++ item :: post))
    with (pre ++ VObj (merged iso (Some item) updates) :: post)
    by (by rewrite <- (Nat.add_0_r (length pre)), insert_app_r).
  rewrite list_lookup_middle by done.
  unfold write, Fs.writeJsonSync. by rewrite Hfile.
Qed.

Lemma delete_first id pre item post :
  first_match id data pre item post →
  delete table id fs = Ok (true, <[file := Json (VArr (pre ++ post))]> fs).
Proof using Hfile Hread.
  intros Hfirst. pose proof Hfirst as (-> & Hpre & Hitem).
  unfold delete, mbind, M_bind. rewrite Hread. simpl.
  rewrite (findIndex_first _ _ _ _ _ Hfirst). simpl.
  destruct (Z.eqb_spec (Z.of_nat (length pre)) (-1)) as [?|_]; [lia|].
  unfold splice1. rewrite Nat2Z.id, delete_middle.
  unfold write, Fs.writeJsonSync. by rewrite Hfile.
Qed.

Lemma delete_none id :
  no_match id data → delete table id fs = Ok (false, fs).
Proof using Hread.
  intros Hno. unfold delete, mbind, M_bind. rewrite Hread. simpl.
  unfold findIndex. by rewrite findIndex_from_none.
Qed.
End Table.

(** *** Updating a record *)

Lemma merged_record_A iso :
  merged iso (Some (VObj record_A)) (VObj {[ "price" := VNum 20 ]})
  = record_A_updated iso.
Proof.
  reflexivity.
Qed.

(** C3, amended: on a table in which the first record whose id loosely
    equals 1 is {id: 1, name: "A", price: 10},
    [update(table, 1, {price: 20})] returns
    {id: 1, name: "A", price: 20, updated_at: <the clock's ISO text>} and
    stores it in that record's place; the fields the partial update does
    not mention are kept. *)
Theorem update_merges_fields
    (iso table : string) (data pre post : list value) (fs : files) :
  read table fs = Ok (VArr data, fs) →
  data = pre ++ VObj record_A :: post →
  no_match (VNum 1) pre →
  ∃ fs',
    update iso table (VNum 1) (VObj {[ "price" := VNum 20 ]}) fs
      = Ok (VObj (record_A_updated iso), fs') ∧
    read table fs'
      = Ok (VArr (pre ++ VObj (record_A_updated iso) :: post), fs') ∧
    record_A_updated iso !! "name" = record_A !! "name" ∧
    record_A_updated iso !! "id" = record_A !! "id".
Proof.
  intros Hr Hdata Hpre.
  assert (first_match (VNum 1) data pre (VObj record_A) post) as Hfirst
    by by repeat split.
  destruct (first_match_known _ _ _ _ _ _ _ Hr Hfirst) as [file Hf].
  eexists. split.
  - rewrite <- merged_record_A.
    by apply (update_first table file data fs Hf Hr iso (VNum 1) _ pre _ post).
  - split; [by apply read_after_write|]. by split.
Qed.

Lemma update_merges_fields_witness :
  let other : value := VObj {[ "id" := VNum 7; "name" := VStr "B" ]} in
  let iso := "2023-11-14T22:13:20.000Z" in
  let fs : files :=
    {[ "data/products.json" := Json (VArr [other; VObj record_A]) ]} in
  ∃ fs',
    update iso "products" (VNum 1) (VObj {[ "price" := VNum 20 ]}) fs
      = Ok (VObj (record_A_updated iso), fs') ∧
    read "products" fs'
      = Ok (VArr ([other] ++ VObj (record_A_updated iso) :: []), fs') ∧
    record_A_updated iso !! "name" = record_A !! "name" ∧
    record_A_updated iso !! "id" = record_A !! "id".
Proof.
  intros other iso fs.
  apply (update_merges_fields iso "products" [other; VObj record_A]).
  - reflexivity.
  - reflexivity.
  - repeat constructor.
Defined.

(** C3 as stated fails on a table that holds a second record with id 1
    ahead of {id: 1, name: "A", price: 10}: the update lands on the earlier
    record and the record of the claim stays as it was. *)
Lemma update_lands_on_earlier_duplicate :
  let other : obj :=
    {[ "id" := VNum 1; "name" := VStr "B"; "price" := VNum 5 ]} in
  let iso := "2023-11-14T22:13:20.000Z" in
  let fs : files :=
    {[ "data/products.json" := Json (VArr [VObj other; VObj record_A]) ]} in
  VObj record_A ∈ [VObj other; VObj record_A] ∧
  ∃ returned fs',
    update iso "products" (VNum 1) (VObj {[ "price" := VNum 20 ]}) fs
      = Ok (VObj returned, fs') ∧
    returned !! "name" = Some (VStr "B") ∧
    returned ≠ record_A_updated iso ∧
    read "products" fs' = Ok (VArr [VObj returned; VObj record_A], fs').
Proof.
  intros other iso fs. split; [set_solver|].
  eexists _, _. split.
  - apply (update_first "products" "data/products.json"
             [VObj other; VObj record_A] fs eq_refl eq_refl iso (VNum 1) _
             [] (VObj other) [VObj record_A]).
    by repeat split; try constructor.
  - split; [reflexivity|]. split.
    + intros Heq. apply (f_equal (λ m : obj, m !! "name")) in Heq.
      vm_compute in Heq. discriminate.
    + by apply read_after_write.
Qed.

(** C10: when [update] finds a record, what it stores and returns is the
    record's fields, overridden by the partial fields, overridden last by
    [updated_at] from the clock.  So an [updated_at] among the partial
    fields never reaches the table, while an [id] or a [created_at] among
    them replaces the record's own. *)
Theorem update_merge_order
    (iso table : string) (id : value) (existing partial : obj)
    (data pre post : list value) (fs : files) :
  read table fs = Ok (VArr data, fs) →
  first_match id data pre (VObj existing) post →
  ∃ stored fs',
    update iso table id (VObj partial) fs = Ok (VObj stored, fs') ∧
    read table fs' = Ok (VArr (pre ++ VObj stored :: post), fs') ∧
    stored = <["updated_at" := VStr iso]> (partial ∪ existing) ∧
    stored !! "updated_at" = Some (VStr iso) ∧
    (∀ field v, field ≠ "updated_at" → partial !! field = Some v →
       stored !! field = Some v) ∧
    (∀ field, field ≠ "updated_at" → partial !! field = None →
       stored !! field = existing !! field) ∧
    (∀ v, partial !! "id" = Some v → stored !! "id" = Some v) ∧
    (∀ v, partial !! "created_at" = Some v →
       stored !! "created_at" = Some v).
Proof.
  intros Hr Hfirst.
  destruct (first_match_known _ _ _ _ _ _ _ Hr Hfirst) as [file Hf].
  eexists _, _.
  split; [by apply (update_first table file data fs Hf Hr iso id
                      (VObj partial) pre (VObj existing) post)|].
  split; [by apply read_after_write|].
  unfold merged. simpl. split; [done|].
  split; [by rewrite lookup_insert_eq|].
  assert (∀ field v, field ≠ "updated_at" → partial !! field = Some v →
            (<["updated_at" := VStr iso]> (partial ∪ existing) : obj) !! field
            = Some v) as Hpartial.
  { intros field v Hne Hv. rewrite lookup_insert_ne by done.
    by apply lookup_union_Some_l. }
  split; [done|]. split.
  - intros field Hne Hnone. rewrite lookup_insert_ne by done.
    by rewrite lookup_union_r.
  - split; intros v; by apply Hpartial.
Qed.

Lemma update_merge_order_witness :
  let existing : obj :=
    {[ "id" := VNum 5; "created_at" := VStr "2023-01-01T00:00:00.000Z";
       "title" := VStr "Intro" ]} in
  let partial : obj :=
    {[ "id" := VStr "9"; "created_at" := VStr "mine";
       "updated_at" := VStr "forged" ]} in
  let iso := "2023-11-14T22:13:20.000Z" in
  let fs : files := {[ "data/videos.json" := Json (VArr [VObj existing]) ]} in
  ∃ stored fs',
    update iso "videos" (VStr "5") (VObj partial) fs = Ok (VObj stored, fs') ∧
    read "videos" fs' = Ok (VArr ([] ++ VObj stored :: []), fs') ∧
    stored = <["updated_at" := VStr iso]> (partial ∪ existing) ∧
    stored !! "updated_at" = Some (VStr iso) ∧
    (∀ field v, field ≠ "updated_at" → partial !! field = Some v →
       stored !! field = Some v) ∧
    (∀ field, field ≠ "updated_at" → partial !! field = None →
       stored !! field = existing !! field) ∧
    (∀ v, partial !! "id" = Some v → stored !! "id" = Some v) ∧
    (∀ v, partial !! "created_at" = Some v →
       stored !! "created_at" = Some v).
Proof.
  intros existing partial iso fs.
  apply (update_merge_order iso "videos" (VStr "5") existing partial
           [VObj existing] [] [] fs).
  - reflexivity.
  - split; [reflexivity|]. split; [constructor|reflexivity].
Defined.

(** *** Deleting a record, and duplicates *)

(** C4: on a table that reads as an array, deleting an id that occurs
    exactly once returns true and leaves a table one record shorter, the
    others in place; deleting an id that does not occur returns false and
    leaves the files as they were. *)
Theorem delete_removes_exactly_one
    (table : string) (id : value) (data : list value) (fs : files) :
  read table fs = Ok (VArr data, fs) →
  (occurrences id data = Ok 1%nat →
     ∃ fs' pre item post,
       delete table id fs = Ok (true, fs') ∧
       data = pre ++ item :: post ∧
       read table fs' = Ok (VArr (pre ++ post), fs') ∧
       (length (pre ++ post) + 1)%nat = length data ∧
       occurrences id (pre ++ post) = Ok O) ∧
  (occurrences id data = Ok O → delete table id fs = Ok (false, fs)).
Proof.
  intros Hr. split.
  - intros Hone.
    destruct (occurrences_one _ _ Hone) as (pre & item & post & Hfirst & Hpost).
    destruct (first_match_known _ _ _ _ _ _ _ Hr Hfirst) as [file Hf].
    exists (<[file := Json (VArr (pre ++ post))]> fs), pre, item, post.
    split; [by apply (delete_first table file data fs Hf Hr id pre item post)|].
    destruct Hfirst as (-> & Hpre & Hitem). split; [done|].
    split; [by apply read_after_write|].
    split; [rewrite !length_app; simpl; lia|].
    clear Hone Hr. induction Hpre as [|x pre Hx _ IH]; simpl.
    + induction Hpost as [|y post Hy _ IH]; simpl; [done|].
      by rewrite Hy, IH.
    + rewrite Hx. simpl. by rewrite IH.
  - intros Hzero. apply (delete_none table data fs Hr).
    by apply occurrences_zero.
Qed.

Lemma delete_removes_exactly_one_witness :
  let a : value := VObj {[ "id" := VNum 1; "name" := VStr "Wash" ]} in
  let b : value := VObj {[ "id" := VNum 2; "name" := VStr "Cut" ]} in
  let fs : files := {[ "data/services.json" := Json (VArr [a; b]) ]} in
  (∃ fs' pre item post,
     delete "services" (VStr "2") fs = Ok (true, fs') ∧
     [a; b] = pre ++ item :: post ∧
     read "services" fs' = Ok (VArr (pre ++ post), fs') ∧
     (length (pre ++ post) + 1)%nat = length [a; b] ∧
     occurrences (VStr "2") (pre ++ post) = Ok O) ∧
  delete "services" (VNum 3) fs = Ok (false, fs).
Proof.
  intros a b fs. split.
  - apply (delete_removes_exactly_one "services" (VStr "2") [a; b] fs);
      reflexivity.
  - apply (delete_removes_exactly_one "services" (VNum 3) [a; b] fs);
      reflexivity.
Defined.

(** C7: when several records of a table have ids loosely equal to the
    argument, [update] and [delete] act on the first of them in index
    order: the records before it and all the records after it, later
    duplicates included, stay in place and unchanged. *)
Theorem first_duplicate_is_the_target
    (iso table : string) (id updates item : value)
    (data pre post : list value) (fs : files) :
  read table fs = Ok (VArr data, fs) →
  first_match id data pre item post →
  (∃ fs',
     update iso table id updates fs
       = Ok (VObj (merged iso (Some item) updates), fs') ∧
     read table fs'
       = Ok (VArr (pre ++ VObj (merged iso (Some item) updates) :: post),
             fs')) ∧
  (∃ fs',
     delete table id fs = Ok (true, fs') ∧
     read table fs' = Ok (VArr (pre ++ post), fs')).
Proof.
  intros Hr Hfirst.
  destruct (first_match_known _ _ _ _ _ _ _ Hr Hfirst) as [file Hf].
  split; eexists; split.
  - by apply (update_first table file data fs Hf Hr iso id updates pre item post).
  - by apply read_after_write.
  - by apply (delete_first table file data fs Hf Hr id pre item post).
  - by apply read_after_write.
Qed.

Lemma first_duplicate_is_the_target_witness :
  let a : value := VObj {[ "id" := VNum 3 ]} in
  let b : value := VObj {[ "id" := VNum 5; "status" := VStr "pending" ]} in
  let c : value := VObj {[ "id" := VStr "5"; "status" := VStr "late" ]} in
  let iso := "2023-11-14T22:13:20.000Z" in
  let updates : value := VObj {[ "status" := VStr "confirmed" ]} in
  let fs : files := {[ "data/bookings.json" := Json (VArr [a; b; c]) ]} in
  (∃ fs',
     update iso "bookings" (VNum 5) updates fs
       = Ok (VObj (merged iso (Some b) updates), fs') ∧
     read "bookings" fs'
       = Ok (VArr ([a] ++ VObj (merged iso (Some b) updates) :: [c]), fs')) ∧
  (∃ fs',
     delete "bookings" (VNum 5) fs = Ok (true, fs') ∧
     read "bookings" fs' = Ok (VArr ([a] ++ [c]), fs')).
Proof.
  intros a b c iso updates fs.
  apply (first_duplicate_is_the_target iso "bookings" (VNum 5) updates b
           [a; b; c] [a] [c] fs).
  - reflexivity.
  - split; [reflexivity|]. split; [repeat constructor|reflexivity].
Defined.

(** *** Loose equality of ids *)

Lemma loosely_equal_number_text n :
  loosely_equal (Some (VNum n)) (VStr (NumberToString n)) = Ok true.
Proof.
  unfold loosely_equal. simpl.
  by rewrite StringToNumber_NumberToString; simpl; rewrite Z.eqb_refl.
Qed.

Lemma loosely_equal_text_number n :
  loosely_equal (Some (VStr (NumberToString n))) (VNum n) = Ok true.
Proof.
  unfold loosely_equal. simpl.
  by rewrite StringToNumber_NumberToString; simpl; rewrite Z.eqb_refl.
Qed.

Lemma NumberToString_inj n k : NumberToString n = NumberToString k → n = k.
Proof.
  intros Heq. apply (f_equal StringToNumber) in Heq.
  rewrite !StringToNumber_NumberToString in Heq. by injection Heq.
Qed.

(** On a plain id the lookup by number and the lookup by text agree. *)
Lemma id_matches_plain n item :
  has_plain_id item →
  ∃ b, id_matches (VNum n) item = Ok b ∧
       id_matches (VStr (NumberToString n)) item = Ok b.
Proof.
  intros (m & k & -> & [Hk|Hk]); exists (k =? n);
    unfold id_matches; simpl; rewrite Hk; unfold loosely_equal; simpl.
  - by rewrite StringToNumber_NumberToString.
  - rewrite StringToNumber_NumberToString. simpl.
    split; [by rewrite Z.eqb_sym|]. f_equal.
    destruct (Z.eqb_spec k n) as [->|Hne].
    + by rewrite bool_decide_true.
    + rewrite bool_decide_false; [done|]. by intros ?%NumberToString_inj.
Qed.

Lemma find_plain n data :
  Forall has_plain_id data →
  find (id_matches (VStr (NumberToString n))) data
  = find (id_matches (VNum n)) data.
Proof.
  induction 1 as [|item data Hitem _ IH]; simpl; [done|].
  destruct (id_matches_plain n item Hitem) as (b & -> & ->).
  simpl. by rewrite IH.
Qed.

Lemma find_plain_present n data :
  Forall has_plain_id data →
  (∃ item, item ∈ data ∧ id_matches (VNum n) item = Ok true) →
  ∃ found, find (id_matches (VNum n)) data = Ok (Some found) ∧
           id_matches (VNum n) found = Ok true.
Proof.
  induction 1 as [|item data Hitem _ IH]; intros (x & Hx & Hid).
  - by apply elem_of_nil in Hx.
  - simpl. destruct (id_matches_plain n item Hitem) as (b & Hb & _).
    rewrite Hb. simpl. destruct b; [by exists item|].
    apply IH. exists x. split; [|done].
    apply elem_of_cons in Hx as [->|Hx]; [|done]. congruence.
Qed.

(** C5, amended: on a table that has a file and in which every stored id
    is a number or the decimal text of a number, after an insert at clock
    reading [now] (42 in the claim), [findById] with the number and
    [findById] with its decimal text return the same record, one whose id
    loosely equals that number; and in general a number and its decimal
    text are loosely equal, whichever of the two is stored. *)
Theorem findById_number_or_text
    (now : Z) (iso table : string) (record : obj) (data : list value)
    (fs : files) :
  is_Some (dbFiles table) →
  read table fs = Ok (VArr data, fs) →
  Forall has_plain_id data →
  (∃ stored fs' found,
     insert now iso table record fs = Ok (stored, fs') ∧
     stored !! "id" = Some (VNum now) ∧
     findById table (VNum now) fs' = Ok (Some found, fs') ∧
     findById table (VStr (NumberToString now)) fs' = Ok (Some found, fs') ∧
     id_matches (VNum now) found = Ok true) ∧
  (∀ n, loosely_equal (Some (VNum n)) (VStr (NumberToString n)) = Ok true ∧
        loosely_equal (Some (VStr (NumberToString n))) (VNum n) = Ok true).
Proof.
  intros [file Hf] Hr Hdata.
  split; [|intros n; split;
           [apply loosely_equal_number_text|apply loosely_equal_text_number]].
  set (stored := <["created_at" := VStr iso]> (<["id" := VNum now]> record)).
  assert (stored !! "id" = Some (VNum now)) as Hid
    by (unfold stored; by rewrite lookup_insert_ne, lookup_insert_eq).
  assert (Forall has_plain_id (data ++ [VObj stored])) as Hall.
  { apply Forall_app. split; [done|]. constructor; [|constructor].
    exists stored, now. by split; [|left]. }
  destruct (find_plain_present now (data ++ [VObj stored]) Hall)
    as (found & Hfound & Hfid).
  { exists (VObj stored). split; [set_solver|].
    unfold id_matches. simpl. rewrite Hid. unfold loosely_equal. simpl.
    by rewrite Z.eqb_refl. }
  exists stored, (<[file := Json (VArr (data ++ [VObj stored]))]> fs), found.
  split; [by apply insert_ok|]. split; [done|].
  unfold findById, mbind, M_bind.
  rewrite (read_after_write table file _ fs Hf). simpl.
  by rewrite find_plain, Hfound by done.
Qed.

Lemma findById_number_or_text_witness :
  let earlier : value := VObj {[ "id" := VStr "41"; "name" := VStr "Silk" ]} in
  let iso := "1970-01-01T00:00:00.042Z" in
  let fs : files := {[ "data/products.json" := Json (VArr [earlier]) ]} in
  (∃ stored fs' found,
     insert 42 iso "products" {[ "name" := VStr "Lace" ]} fs
       = Ok (stored, fs') ∧
     stored !! "id" = Some (VNum 42) ∧
     findById "products" (VNum 42) fs' = Ok (Some found, fs') ∧
     findById "products" (VStr "42") fs' = Ok (Some found, fs') ∧
     id_matches (VNum 42) found = Ok true) ∧
  (∀ n, loosely_equal (Some (VNum n)) (VStr (NumberToString n)) = Ok true ∧
        loosely_equal (Some (VStr (NumberToString n))) (VNum n) = Ok true).
Proof.
  intros earlier iso fs.
  apply (findById_number_or_text 42 iso "products" _ [earlier] fs).
  - exists "data/products.json". reflexivity.
  - reflexivity.
  - constructor; [|constructor]. eexists _, 41. split; [reflexivity|].
    right. reflexivity.
Defined.

(** C5 as stated fails on a table that already holds a record whose id is
    the text "042": that text converts to the number 42, so the lookup by
    42 stops at the old record, while the lookup by "42" compares text with
    text, passes it by and returns the record just inserted. *)
Lemma findById_number_and_text_differ :
  let old : value := VObj {[ "id" := VStr "042"; "name" := VStr "Silk" ]} in
  let iso := "1970-01-01T00:00:00.042Z" in
  let fs : files := {[ "data/products.json" := Json (VArr [old]) ]} in
  ∃ stored fs',
    insert 42 iso "products" {[ "name" := VStr "Lace" ]} fs
      = Ok (stored, fs') ∧
    stored !! "id" = Some (VNum 42) ∧
    findById "products" (VNum 42) fs' = Ok (Some old, fs') ∧
    findById "products" (VStr "42") fs' = Ok (Some (VObj stored), fs') ∧
    old ≠ VObj stored.
Proof.
  intros old iso fs. eexists _, _.
  split; [by apply (insert_ok 42 iso "products" "data/products.json" _ [old] fs)|].
  split; [reflexivity|].
  unfold findById, mbind, M_bind.
  rewrite (read_after_write "products" "data/products.json" _ fs eq_refl).
  split; [reflexivity|]. split; [reflexivity|].
  intros Heq. apply (f_equal get_id) in Heq. vm_compute in Heq. discriminate.
Qed.

(** *** Initialisation *)

Lemma init_file_result file fs :
  init_file file fs
  = Ok ((), match fs !! file with
            | Some _ => fs
            | None => <[file := Json (VArr [])]> fs
            end).
Proof.
  unfold init_file, mbind, M_bind, Fs.existsSync.
  by destruct (fs !! file).
Qed.

Lemma forEach_init_file l fs :
  forEach init_file l fs = Ok ((), fs ∪ empty_tables l).
Proof.
  revert fs. induction l as [|file l IH]; intros fs.
  - unfold empty_tables. simpl. by rewrite (right_id_L ∅ (∪)).
  - change (forEach init_file (file :: l) fs)
      with (match init_file file fs with
            | Ok (_, fs') => forEach init_file l fs'
            | Throw e => Throw e
            end).
    rewrite init_file_result, IH. do 2 f_equal.
    change (empty_tables (file :: l))
      with (<[file := Json (VArr [])]> (empty_tables l)).
    destruct (fs !! file) as [c|] eqn:Hc.
    + apply map_eq. intros k. rewrite !lookup_union.
      destruct (decide (k = file)) as [->|Hne].
      * rewrite Hc, lookup_insert_eq. by destruct (empty_tables l !! file).
      * by rewrite lookup_insert_ne.
    + by rewrite <- insert_union_l, insert_union_r.
Qed.

Lemma init_result fs : init fs = Ok ((), fs ∪ empty_tables (dbFiles_entries.*2)).
Proof. apply forEach_init_file. Qed.

Lemma empty_tables_lookup l file :
  empty_tables l !! file
  = if decide (file ∈ l) then Some (Json (VArr [])) else None.
Proof.
  induction l as [|x l IH]; [done|].
  change (empty_tables (x :: l)) with (<[x := Json (VArr [])]> (empty_tables l)).
  destruct (decide (file = x)) as [->|Hne].
  - rewrite lookup_insert_eq. by rewrite decide_True by set_solver.
  - rewrite lookup_insert_ne, IH by done.
    destruct (decide (file ∈ l)).
    + rewrite decide_True; [done|]. by apply elem_of_cons; right.
    + rewrite decide_False; [done|]. intros [?|?]%elem_of_cons; done.
Qed.

Lemma dbFiles_entries_NoDup : NoDup (dbFiles_entries.*1).
Proof. by apply (bool_decide_unpack (NoDup (dbFiles_entries.*1))). Qed.

Lemma dbFiles_elem table file :
  dbFiles table = Some file → file ∈ dbFiles_entries.*2.
Proof.
  intros Hf. unfold dbFiles in Hf. apply elem_of_list_to_map_2 in Hf.
  apply list_elem_of_fmap. by exists (table, file).
Qed.

(** C8: the initialisation loop never throws; it leaves every file that
    exists exactly as it is, populated or not, creates each missing table
    file as an empty array, touches no other path, and a second run changes
    nothing at all. *)
Theorem init_idempotent (fs : files) :
  ∃ fs1,
    init fs = Ok ((), fs1) ∧
    (∀ file c, fs !! file = Some c → fs1 !! file = Some c) ∧
    (∀ table file, dbFiles table = Some file → fs !! file = None →
       fs1 !! file = Some (Json (VArr []))) ∧
    (∀ file, (∀ table, dbFiles table ≠ Some file) → fs1 !! file = fs !! file) ∧
    init fs1 = Ok ((), fs1).
Proof.
  exists (fs ∪ empty_tables (dbFiles_entries.*2)).
  split; [apply init_result|]. split; [|split; [|split]].
  - intros file c Hc. by apply lookup_union_Some_l.
  - intros table file Hf Hnone. rewrite lookup_union_r by done.
    rewrite empty_tables_lookup. by rewrite decide_True by by eapply dbFiles_elem.
  - intros file Hno. rewrite lookup_union, empty_tables_lookup.
    destruct (decide (file ∈ dbFiles_entries.*2)) as [Hin|_];
      [|by destruct (fs !! file)].
    exfalso. apply list_elem_of_fmap in Hin as ([table file'] & -> & Hin).
    apply (Hno table). apply elem_of_list_to_map_1; [|done].
    apply dbFiles_entries_NoDup.
  - rewrite init_result. by rewrite <- (assoc_L (∪)), (idemp_L (∪)).
Qed.

Lemma init_idempotent_witness :
  let rows : content :=
    Json (VArr [VObj {[ "id" := VNum 1; "name" := VStr "Wash" ]}]) in
  let fs : files := {[ "data/services.json" := rows ]} in
  ∃ fs1,
    init fs = Ok ((), fs1) ∧
    fs1 !! "data/services.json" = Some rows ∧
    fs1 !! "data/bookings.json" = Some (Json (VArr [])) ∧
    fs1 !! "data/orders.json" = None ∧
    init fs1 = Ok ((), fs1).
Proof.
  intros rows fs.
  destruct (init_idempotent fs) as (fs1 & Hinit & Hkept & Hnew & Hother & Hagain).
  exists fs1. split; [done|]. split; [|split; [|split; [|done]]].
  - by apply Hkept.
  - by apply (Hnew "bookings").
  - rewrite Hother; [done|]. intros table Hf.
    apply dbFiles_elem in Hf. vm_compute in Hf.
    repeat (apply elem_of_cons in Hf as [Hf|Hf]; [discriminate|]).
    by apply elem_of_nil in Hf.
Defined.

(** *** The table files hold arrays *)

(** The last step of every operation that writes: [db.write] with an
    array, then the return. *)
Ltac written_array :=
  unfold write, Fs.writeJsonSync;
  match goal with
  | |- context [dbFiles ?t] => destruct (dbFiles t) eqn:?; [|done]
  end;
  intros [= <-] || intros [= _ <-]; by eapply Replaced.

(** The scan of [update] and [delete], up to the test of the index. *)
Ltac scanned table id fs :=
  unfold update, delete, mbind, M_bind; rewrite read_table_value;
  destruct (table_value fs table) as [| | | |data|]; simpl; try done;
  destruct (findIndex (id_matches id) data) as [index|]; simpl; [|done];
  destruct (index =? -1); [intros [= _ <-]; by apply Untouched|].

Lemma write_effect table data fs fs' :
  write table (VArr data) fs = Ok ((), fs') → array_write table fs fs'.
Proof. written_array. Qed.

Lemma insert_effect now iso table record fs stored fs' :
  insert now iso table record fs = Ok (stored, fs') → array_write table fs fs'.
Proof.
  unfold insert, mbind, M_bind. rewrite read_table_value.
  destruct (table_value fs table); simpl; try done. written_array.
Qed.

Lemma update_effect iso table id updates fs r fs' :
  update iso table id updates fs = Ok (r, fs') → array_write table fs fs'.
Proof. scanned table id fs. written_array. Qed.

Lemma delete_effect table id fs b fs' :
  delete table id fs = Ok (b, fs') → array_write table fs fs'.
Proof. scanned table id fs. written_array. Qed.

Lemma array_write_keeps table fs fs' :
  array_write table fs fs' →
  wrote_arrays_only fs fs' ∧ (tables_are_arrays fs → tables_are_arrays fs').
Proof.
  intros [->|file data Hf ->].
  - split; [by left|done].
  - assert (wrote_arrays_only fs (<[file := Json (VArr data)]> fs)) as Hw.
    { intros file'. destruct (decide (file' = file)) as [->|Hne].
      - right. exists data. apply lookup_insert_eq.
      - left. by apply lookup_insert_ne. }
    split; [done|]. intros Hinv table' file' Hf'.
    destruct (Hw file') as [->|?]; [by eapply Hinv|done].
Qed.

Lemma init_establishes fs :
  (∀ table file c, dbFiles table = Some file → fs !! file = Some c →
     ∃ data, c = Json (VArr data)) →
  ∃ fs1, init fs = Ok ((), fs1) ∧ tables_are_arrays fs1.
Proof.
  intros Hfs. eexists. split; [apply init_result|]. intros table file Hf.
  destruct (fs !! file) as [c|] eqn:Hc.
  - destruct (Hfs table file c Hf Hc) as [data ->]. exists data.
    by apply lookup_union_Some_l.
  - exists []. rewrite lookup_union_r, empty_tables_lookup by done.
    by rewrite decide_True by by eapply dbFiles_elem.
Qed.

(** C9: in the single-process model every table file holds a JSON array
    from the first initialisation onwards.  Whatever the files held before,
    [write] with an array, [insert], [update] and [delete] write nothing
    but an array; and with the property in force initialisation, [write]
    and [insert] on a table that has a file do complete. *)
Theorem tables_stay_arrays :
  (∀ fs, reachable fs → tables_are_arrays fs) ∧
  (∀ fs fs' table data,
     write table (VArr data) fs = Ok ((), fs') → wrote_arrays_only fs fs') ∧
  (∀ fs fs' now iso table record stored,
     insert now iso table record fs = Ok (stored, fs') →
     wrote_arrays_only fs fs') ∧
  (∀ fs fs' iso table id updates r,
     update iso table id updates fs = Ok (r, fs') → wrote_arrays_only fs fs') ∧
  (∀ fs fs' table id b,
     delete table id fs = Ok (b, fs') → wrote_arrays_only fs fs') ∧
  (∀ fs table, tables_are_arrays fs → is_Some (dbFiles table) →
     (∃ fs', init fs = Ok ((), fs')) ∧
     (∀ data, ∃ fs', write table (VArr data) fs = Ok ((), fs')) ∧
     (∀ now iso record, ∃ stored fs',
        insert now iso table record fs = Ok (stored, fs'))).
Proof.
  split; [|split; [|split; [|split; [|split]]]].
  - induction 1 as [fs fs' Hfresh Hinit|fs fs' _ IH Hinit|fs fs' table data _ IH H
                    |fs fs' now iso table record stored _ IH H
                    |fs fs' iso table id updates r _ IH H
                    |fs fs' table id b _ IH H].
    + destruct (init_establishes fs) as (fs1 & Hfs1 & Harrays).
      { intros table file c Hf Hc. by rewrite (Hfresh table file Hf) in Hc. }
      rewrite Hinit in Hfs1. by injection Hfs1 as ->.
    + destruct (init_establishes fs) as (fs1 & Hfs1 & Harrays).
      { intros table file c Hf Hc. destruct (IH table file Hf) as [data Hd].
        exists data. congruence. }
      rewrite Hinit in Hfs1. by injection Hfs1 as ->.
    + by apply (array_write_keeps _ _ _ (write_effect _ _ _ _ H)).
    + by apply (array_write_keeps _ _ _ (insert_effect _ _ _ _ _ _ _ H)).
    + by apply (array_write_keeps _ _ _ (update_effect _ _ _ _ _ _ _ H)).
    + by apply (array_write_keeps _ _ _ (delete_effect _ _ _ _ _ H)).
  - intros fs fs' table data H. eapply array_write_keeps, write_effect, H.
  - intros fs fs' now iso table record stored H.
    eapply array_write_keeps, insert_effect, H.
  - intros fs fs' iso table id updates r H.
    eapply array_write_keeps, update_effect, H.
  - intros fs fs' table id b H. eapply array_write_keeps, delete_effect, H.
  - intros fs table Hinv [file Hf]. split; [|split].
    + eexists. apply init_result.
    + intros data. eexists. unfold write, Fs.writeJsonSync. by rewrite Hf.
    + intros now iso record. destruct (Hinv table file Hf) as [data Hdata].
      eexists _, _. apply (insert_ok now iso table file record data fs Hf).
      rewrite read_table_value. unfold table_value. by rewrite Hf, Hdata.
Qed.

Lemma tables_stay_arrays_witness :
  let iso := "2023-11-14T22:13:20.000Z" in
  ∃ fs1 stored fs2 fs3,
    init ∅ = Ok ((), fs1) ∧
    insert 1700000000000 iso "services" {[ "name" := VStr "Wash" ]} fs1
      = Ok (stored, fs2) ∧
    delete "services" (VStr "1700000000000") fs2 = Ok (true, fs3) ∧
    reachable fs3 ∧ tables_are_arrays fs3 ∧ wrote_arrays_only fs2 fs3.
Proof.
  intros iso.
  destruct tables_stay_arrays as (Hreach & _ & _ & _ & Hdelete & _).
  pose proof (init_result ∅) as Hinit.
  set (fs1 := ∅ ∪ empty_tables (dbFiles_entries.*2)) in *.
  pose proof (insert_ok 1700000000000 iso "services" "data/services.json"
                {[ "name" := VStr "Wash" ]} [] fs1 eq_refl eq_refl) as Hinsert.
  simpl in Hinsert.
  set (stored := <["created_at" := VStr iso]> _) in *.
  set (fs2 := <["data/services.json" := _]> fs1) in *.
  assert (read "services" fs2 = Ok (VArr [VObj stored], fs2)) as Hread
    by by apply read_after_write.
  pose proof (delete_first "services" "data/services.json" [VObj stored] fs2
                eq_refl Hread (VStr "1700000000000") [] (VObj stored) []) as Hdel.
  simpl in Hdel. specialize (Hdel ltac:(by repeat split; try constructor)).
  set (fs3 := <["data/services.json" := _]> fs2) in *.
  assert (reachable fs3) as Hfs3.
  { eapply after_delete; [|exact Hdel].
    eapply after_insert; [|exact Hinsert].
    eapply first_start; [|exact Hinit]. intros table file _. apply lookup_empty. }
  exists fs1, stored, fs2, fs3.
  split; [exact Hinit|]. split; [exact Hinsert|]. split; [exact Hdel|].
  split; [exact Hfs3|]. split; [exact (Hreach fs3 Hfs3)|].
  exact (Hdelete _ _ _ _ _ Hdel).
Defined.

(** ** Further properties of the store *)

(** *** One table at a time *)

Lemma dbFiles_inj table other file :
  dbFiles table = Some file → dbFiles other = Some file → table = other.
Proof.
  unfold dbFiles. intros H1 H2.
  apply elem_of_list_to_map_2 in H1. apply elem_of_list_to_map_2 in H2.
  unfold dbFiles_entries in *.
  repeat (apply elem_of_cons in H1 as [H1|H1];
          [injection H1 as -> ->|]); [..|by apply elem_of_nil in H1];
    repeat (apply elem_of_cons in H2 as [H2|H2];
            [by (injection H2 as ->) || discriminate H2|]);
    by apply elem_of_nil in H2.
Qed.

Lemma array_write_frame table other fs fs' :
  array_write table fs fs' → other ≠ table →
  table_value fs' other = table_value fs other.
Proof.
  intros [->|file data Hf ->] Hne; [done|]. unfold table_value.
  destruct (dbFiles other) as [file'|] eqn:Hf'; [|done].
  rewrite lookup_insert_ne; [done|].
  intros <-. apply Hne. exact (dbFiles_inj _ _ _ Hf' Hf).
Qed.

(** [write] stores whatever it is given, array or not: on a table that
    has a file the next [read] returns exactly that value, and every other
    table reads as before. *)
Theorem write_replaces_one_table (table : string) (data : value) (fs : files) :
  is_Some (dbFiles table) →
  ∃ fs',
    write table data fs = Ok ((), fs') ∧
    read table fs' = Ok (data, fs') ∧
    ∀ other, other ≠ table →
      ∃ v, read other fs = Ok (v, fs) ∧ read other fs' = Ok (v, fs').
Proof.
  intros [file Hf]. exists (<[file := Json data]> fs).
  split; [unfold write, Fs.writeJsonSync; by rewrite Hf|].
  split; [by apply read_after_write|].
  intros other Hne. exists (table_value fs other). rewrite !read_table_value.
  split; [done|]. do 2 f_equal. unfold table_value.
  destruct (dbFiles other) as [file'|] eqn:Hf'; [|done].
  rewrite lookup_insert_ne; [done|].
  intros <-. apply Hne. exact (dbFiles_inj _ _ _ Hf' Hf).
Qed.

Lemma write_replaces_one_table_witness :
  let rows : value := VArr [VObj {[ "id" := VNum 3 ]}] in
  let fs : files := {[ "data/gallery.json" := Json rows ]} in
  ∃ fs',
    write "bookings" (VObj {[ "oops" := VBool true ]}) fs = Ok ((), fs') ∧
    read "bookings" fs' = Ok (VObj {[ "oops" := VBool true ]}, fs') ∧
    ∀ other, other ≠ "bookings" →
      ∃ v, read other fs = Ok (v, fs) ∧ read other fs' = Ok (v, fs').
Proof.
  intros rows fs. apply (write_replaces_one_table "bookings").
  exists "data/bookings.json". reflexivity.
Defined.

(** [insert], [update] and [delete] on one table never change what any
    other table reads as. *)
Theorem operations_touch_one_table (table other : string) (fs fs' : files) :
  other ≠ table →
  (∃ now iso record stored,
     insert now iso table record fs = Ok (stored, fs')) ∨
  (∃ iso id updates r, update iso table id updates fs = Ok (r, fs')) ∨
  (∃ id b, delete table id fs = Ok (b, fs')) →
  ∃ v, read other fs = Ok (v, fs) ∧ read other fs' = Ok (v, fs').
Proof.
  intros Hne Hop. exists (table_value fs other). rewrite !read_table_value.
  split; [done|]. do 2 f_equal. apply (array_write_frame table); [|done].
  destruct Hop as [(now & iso & record & stored & H)
                  |[(iso & id & updates & r & H)|(id & b & H)]].
  - by eapply insert_effect.
  - by eapply update_effect.
  - by eapply delete_effect.
Qed.

Lemma operations_touch_one_table_witness :
  let rows : value := VArr [VObj {[ "id" := VNum 3 ]}] in
  let fs : files :=
    {[ "data/gallery.json" := Json rows; "data/videos.json" := Json rows ]} in
  ∃ fs' v,
    delete "videos" (VStr "3") fs = Ok (true, fs') ∧
    read "gallery" fs = Ok (v, fs) ∧ read "gallery" fs' = Ok (v, fs').
Proof.
  intros rows fs.
  pose proof (delete_first "videos" "data/videos.json"
                [VObj {[ "id" := VNum 3 ]}] fs eq_refl eq_refl (VStr "3")
                [] (VObj {[ "id" := VNum 3 ]}) []
                ltac:(by repeat split; try constructor)) as Hdel.
  destruct (operations_touch_one_table "videos" "gallery" fs _ ltac:(done)
              (or_intror (or_intror (ex_intro _ _ (ex_intro _ _ Hdel)))))
    as (v & Hbefore & Hafter).
  by eexists _, v.
Defined.

(** *** Edges of the table file *)

(** [insert] appends: on a table that has a file and reads as an array,
    the table afterwards is the old records, in their order and unchanged,
    followed by the new record. *)
Theorem insert_appends
    (now : Z) (iso table : string) (record : obj) (data : list value)
    (fs : files) :
  is_Some (dbFiles table) →
  read table fs = Ok (VArr data, fs) →
  ∃ stored fs',
    insert now iso table record fs = Ok (stored, fs') ∧
    read table fs' = Ok (VArr (data ++ [VObj stored]), fs') ∧
    length (data ++ [VObj stored]) = S (length data) ∧
    ∀ i item, data !! i = Some item →
      (data ++ [VObj stored]) !! i = Some item.
Proof.
  intros [file Hf] Hr. eexists _, _. split; [by apply insert_ok|].
  split; [by apply read_after_write|].
  split; [rewrite length_app; simpl; lia|].
  intros i item Hi. by apply lookup_app_l_Some.
Qed.

Lemma insert_appends_witness :
  let a : value := VObj {[ "id" := VNum 1; "name" := VStr "Wash" ]} in
  let b : value := VObj {[ "id" := VNum 2; "name" := VStr "Cut" ]} in
  let fs : files := {[ "data/services.json" := Json (VArr [a; b]) ]} in
  ∃ stored fs',
    insert 1700000000000 "2023-11-14T22:13:20.000Z" "services"
      {[ "name" := VStr "Braids" ]} fs = Ok (stored, fs') ∧
    read "services" fs' = Ok (VArr ([a; b] ++ [VObj stored]), fs') ∧
    length ([a; b] ++ [VObj stored]) = S (length [a; b]) ∧
    ∀ i item, [a; b] !! i = Some item →
      ([a; b] ++ [VObj stored]) !! i = Some item.
Proof.
  intros a b fs. apply (insert_appends _ _ "services" _ [a; b] fs).
  - exists "data/services.json". reflexivity.
  - reflexivity.
Defined.

(** When the table's file is missing or holds malformed JSON, [insert]
    does not fail: it starts from the empty table, and afterwards the file
    holds the new record and nothing else, whatever text it held before. *)
Theorem insert_over_unreadable_file
    (now : Z) (iso table file : string) (record : obj) (fs : files) :
  dbFiles table = Some file →
  fs !! file = None ∨ (∃ text, fs !! file = Some (Malformed text)) →
  ∃ stored fs',
    insert now iso table record fs = Ok (stored, fs') ∧
    fs' !! file = Some (Json (VArr [VObj stored])) ∧
    read table fs' = Ok (VArr [VObj stored], fs').
Proof.
  intros Hf Hbad. eexists _, _.
  assert (read table fs = Ok (VArr [], fs)) as Hr.
  { rewrite read_table_value. unfold table_value. rewrite Hf.
    by destruct Hbad as [->|[text ->]]. }
  split; [by apply (insert_ok now iso table file record [] fs)|].
  split; [apply lookup_insert_eq|by apply read_after_write].
Qed.

Lemma insert_over_unreadable_file_witness :
  let fs : files :=
    {[ "data/bookings.json" := Malformed "[{ 'id': 1700000000000, " ]} in
  ∃ stored fs',
    insert 1700000000001 "2023-11-14T22:13:20.001Z" "bookings"
      {[ "customer_name" := VStr "Ada" ]} fs = Ok (stored, fs') ∧
    fs' !! "data/bookings.json" = Some (Json (VArr [VObj stored])) ∧
    read "bookings" fs' = Ok (VArr [VObj stored], fs').
Proof.
  intros fs.
  apply (insert_over_unreadable_file _ _ "bookings" "data/bookings.json").
  - reflexivity.
  - right. eexists. reflexivity.
Defined.

(** When the table's file parses to something that is not an array,
    [insert], [findById], [update] and [delete] all throw a TypeError, and
    so write nothing. *)
Theorem non_array_table_throws
    (now : Z) (iso table file : string) (record : obj) (id updates v : value)
    (fs : files) :
  dbFiles table = Some file →
  fs !! file = Some (Json v) →
  (∀ data, v ≠ VArr data) →
  insert now iso table record fs = Throw TypeError ∧
  findById table id fs = Throw TypeError ∧
  update iso table id updates fs = Throw TypeError ∧
  delete table id fs = Throw TypeError.
Proof.
  intros Hf Hv Hna.
  assert (read table fs = Ok (v, fs)) as Hr.
  { rewrite read_table_value. unfold table_value. by rewrite Hf, Hv. }
  assert (as_array v = Throw TypeError) as Harr
    by (destruct v; try done; by destruct (Hna l)).
  unfold insert, findById, update, delete, mbind, M_bind.
  rewrite Hr. simpl. unfold lift. by rewrite Harr.
Qed.

Lemma non_array_table_throws_witness :
  let fs : files :=
    {[ "data/products.json" := Json (VObj {[ "products" := VArr [] ]}) ]} in
  insert 1700000000000 "2023-11-14T22:13:20.000Z" "products"
    {[ "name" := VStr "Wig" ]} fs = Throw TypeError ∧
  findById "products" (VNum 1) fs = Throw TypeError ∧
  update "2023-11-14T22:13:20.000Z" "products" (VNum 1)
    (VObj {[ "name" := VStr "Wig" ]}) fs = Throw TypeError ∧
  delete "products" (VNum 1) fs = Throw TypeError.
Proof.
  intros fs.
  apply (non_array_table_throws _ _ "products" "data/products.json" _ _ _
           (VObj {[ "products" := VArr [] ]})).
  - reflexivity.
  - reflexivity.
  - intros data. discriminate.
Defined.

(** A table name outside the seven known ones behaves as an empty table
    for [read], [findById], [update] and [delete], which report nothing
    found and write nothing, while [insert] and [write] throw a
    TypeError. *)
Theorem unknown_table_is_empty_and_read_only
    (now : Z) (iso table : string) (record : obj) (id updates data : value)
    (fs : files) :
  dbFiles table = None →
  read table fs = Ok (VArr [], fs) ∧
  findById table id fs = Ok (None, fs) ∧
  update iso table id updates fs = Ok (VNull, fs) ∧
  delete table id fs = Ok (false, fs) ∧
  insert now iso table record fs = Throw TypeError ∧
  write table data fs = Throw TypeError.
Proof.
  intros Hf.
  assert (read table fs = Ok (VArr [], fs)) as Hr.
  { rewrite read_table_value. unfold table_value. by rewrite Hf. }
  split; [done|].
  unfold insert, findById, update, delete, write, mbind, M_bind.
  rewrite Hr. simpl. unfold Fs.writeJsonSync. by rewrite Hf.
Qed.

Lemma unknown_table_is_empty_and_read_only_witness :
  let fs : files := {[ "data/orders.json" := Json (VArr [VNum 1]) ]} in
  read "orders" fs = Ok (VArr [], fs) ∧
  findById "orders" (VNum 1) fs = Ok (None, fs) ∧
  update "2023-11-14T22:13:20.000Z" "orders" (VNum 1) (VObj ∅) fs
    = Ok (VNull, fs) ∧
  delete "orders" (VNum 1) fs = Ok (false, fs) ∧
  insert 1700000000000 "2023-11-14T22:13:20.000Z" "orders" ∅ fs
    = Throw TypeError ∧
  write "orders" (VArr []) fs = Throw TypeError.
Proof.
  intros fs. apply (unknown_table_is_empty_and_read_only _ _ "orders").
  reflexivity.
Defined.

Lemma update_not_found iso table id updates data fs :
  read table fs = Ok (VArr data, fs) → no_match id data →
  update iso table id updates fs = Ok (VNull, fs).
Proof.
  intros Hr Hno. unfold update, mbind, M_bind. rewrite Hr. simpl.
  unfold findIndex. by rewrite findIndex_from_none.
Qed.

(** When no record's id loosely equals the argument, [findById] returns
    undefined and [update] returns null, and neither writes. *)
Theorem absent_id_is_not_found
    (iso table : string) (id updates : value) (data : list value)
    (fs : files) :
  read table fs = Ok (VArr data, fs) →
  occurrences id data = Ok O →
  findById table id fs = Ok (None, fs) ∧
  update iso table id updates fs = Ok (VNull, fs).
Proof.
  intros Hr Hzero. apply occurrences_zero in Hzero.
  assert (find (id_matches id) data = Ok None) as Hfind.
  { clear Hr. induction Hzero as [|item data Hitem _ IH]; simpl; [done|].
    by rewrite Hitem. }
  split.
  - unfold findById, mbind, M_bind. rewrite Hr. simpl. by rewrite Hfind.
  - by apply (update_not_found iso table id updates data).
Qed.

Lemma absent_id_is_not_found_witness :
  let a : value := VObj {[ "id" := VNum 1; "name" := VStr "Wash" ]} in
  let fs : files := {[ "data/services.json" := Json (VArr [a]) ]} in
  findById "services" (VStr "2") fs = Ok (None, fs) ∧
  update "2023-11-14T22:13:20.000Z" "services" (VStr "2")
    (VObj {[ "name" := VStr "Cut" ]}) fs = Ok (VNull, fs).
Proof.
  intros a fs.
  apply (absent_id_is_not_found _ "services" (VStr "2") _ [a]); reflexivity.
Defined.

(** *** Lookups after changes *)

Lemma find_no_match id data :
  no_match id data → find (id_matches id) data = Ok None.
Proof.
  induction 1 as [|item data Hitem _ IH]; simpl; [done|]. by rewrite Hitem.
Qed.

Lemma find_first_match id data pre item post :
  first_match id data pre item post →
  find (id_matches id) data = Ok (Some item).
Proof.
  intros (-> & Hpre & Hitem).
  induction Hpre as [|x pre Hx _ IH]; simpl; [by rewrite Hitem|].
  by rewrite Hx.
Qed.

Lemma findById_found table id data pre item post fs :
  read table fs = Ok (VArr data, fs) → first_match id data pre item post →
  findById table id fs = Ok (Some item, fs).
Proof.
  intros Hr Hfirst. unfold findById, mbind, M_bind. rewrite Hr. simpl.
  by rewrite (find_first_match _ _ _ _ _ Hfirst).
Qed.

Lemma findById_not_found table id data fs :
  read table fs = Ok (VArr data, fs) → no_match id data →
  findById table id fs = Ok (None, fs).
Proof.
  intros Hr Hno. unfold findById, mbind, M_bind. rewrite Hr. simpl.
  by rewrite find_no_match.
Qed.

Lemma insert_first_match now iso record id data :
  no_match id data →
  loosely_equal (Some (VNum now)) id = Ok true →
  let stored := <["created_at" := VStr iso]> (<["id" := VNum now]> record) in
  first_match id (data ++ [VObj stored]) data (VObj stored) [].
Proof.
  intros Hno Heq stored. split; [done|]. split; [done|].
  unfold id_matches. simpl. unfold stored.
  by rewrite lookup_insert_ne, lookup_insert_eq.
Qed.

(** A record just inserted is found under its id: when no record already
    in the table matches [id], and [id] loosely equals the clock reading
    that became the new record's id (the number itself, or its decimal
    text), [findById] returns the inserted record. *)
Theorem insert_then_findById
    (now : Z) (iso table : string) (record : obj) (id : value)
    (data : list value) (fs : files) :
  is_Some (dbFiles table) →
  read table fs = Ok (VArr data, fs) →
  no_match id data →
  loosely_equal (Some (VNum now)) id = Ok true →
  ∃ stored fs',
    insert now iso table record fs = Ok (stored, fs') ∧
    findById table id fs' = Ok (Some (VObj stored), fs').
Proof.
  intros [file Hf] Hr Hno Heq. eexists _, _.
  split; [by apply insert_ok|].
  eapply findById_found; [by apply read_after_write|].
  by apply insert_first_match.
Qed.

Lemma insert_then_findById_witness :
  let a : value := VObj {[ "id" := VNum 1699999999999 ]} in
  let fs : files := {[ "data/videos.json" := Json (VArr [a]) ]} in
  ∃ stored fs',
    insert 1700000000000 "2023-11-14T22:13:20.000Z" "videos"
      {[ "title" := VStr "Intro" ]} fs = Ok (stored, fs') ∧
    findById "videos" (VStr "1700000000000") fs' = Ok (Some (VObj stored), fs').
Proof.
  intros a fs.
  apply (insert_then_findById _ _ "videos" _ (VStr "1700000000000") [a] fs).
  - exists "data/videos.json". reflexivity.
  - reflexivity.
  - repeat constructor.
  - reflexivity.
Defined.

(** Deleting a record just inserted undoes the insert: under the same
    conditions, [delete] by that id returns true and the table reads as it
    did before the insert; if the table's file held that array, the files
    are back to what they were. *)
Theorem insert_then_delete
    (now : Z) (iso table file : string) (record : obj) (id : value)
    (data : list value) (fs : files) :
  dbFiles table = Some file →
  read table fs = Ok (VArr data, fs) →
  no_match id data →
  loosely_equal (Some (VNum now)) id = Ok true →
  ∃ stored fs' fs'',
    insert now iso table record fs = Ok (stored, fs') ∧
    delete table id fs' = Ok (true, fs'') ∧
    read table fs'' = Ok (VArr data, fs'') ∧
    (fs !! file = Some (Json (VArr data)) → fs'' = fs).
Proof.
  intros Hf Hr Hno Heq.
  set (stored := <["created_at" := VStr iso]> (<["id" := VNum now]> record)).
  set (fs' := <[file := Json (VArr (data ++ [VObj stored]))]> fs).
  exists stored, fs', (<[file := Json (VArr (data ++ []))]> fs').
  split; [by apply insert_ok|]. split.
  - apply (delete_first table file (data ++ [VObj stored]) fs' Hf
             (read_after_write table file _ fs Hf) id data (VObj stored) []).
    by apply insert_first_match.
  - unfold fs'. rewrite app_nil_r, insert_insert_eq.
    split; [by apply read_after_write|]. intros Hfile. by apply insert_id.
Qed.

Lemma insert_then_delete_witness :
  let a : value := VObj {[ "id" := VNum 1699999999999 ]} in
  let fs : files := {[ "data/videos.json" := Json (VArr [a]) ]} in
  ∃ stored fs' fs'',
    insert 1700000000000 "2023-11-14T22:13:20.000Z" "videos"
      {[ "title" := VStr "Intro" ]} fs = Ok (stored, fs') ∧
    delete "videos" (VNum 1700000000000) fs' = Ok (true, fs'') ∧
    read "videos" fs'' = Ok (VArr [a], fs'') ∧
    (fs !! "data/videos.json" = Some (Json (VArr [a])) → fs'' = fs).
Proof.
  intros a fs.
  apply (insert_then_delete _ _ "videos" "data/videos.json" _
           (VNum 1700000000000) [a] fs).
  - reflexivity.
  - reflexivity.
  - repeat constructor.
  - reflexivity.
Defined.

(** After deleting an id that occurred exactly once, that id is gone:
    [findById] returns undefined, [update] returns null and a second
    [delete] returns false. *)
Theorem delete_then_not_found
    (iso table : string) (id updates : value) (data : list value)
    (fs : files) :
  read table fs = Ok (VArr data, fs) →
  occurrences id data = Ok 1%nat →
  ∃ fs',
    delete table id fs = Ok (true, fs') ∧
    findById table id fs' = Ok (None, fs') ∧
    update iso table id updates fs' = Ok (VNull, fs') ∧
    delete table id fs' = Ok (false, fs').
Proof.
  intros Hr Hone.
  destruct (occurrences_one _ _ Hone) as (pre & item & post & Hfirst & Hpost).
  destruct (first_match_known _ _ _ _ _ _ _ Hr Hfirst) as [file Hf].
  pose proof Hfirst as (-> & Hpre & Hitem).
  assert (no_match id (pre ++ post)) as Hno by by apply Forall_app.
  eexists. split; [by apply (delete_first table file _ fs Hf Hr id pre item post)|].
  pose proof (read_after_write table file (VArr (pre ++ post)) fs Hf) as Hr'.
  split; [by eapply findById_not_found|].
  split; [by eapply update_not_found|by eapply delete_none].
Qed.

Lemma delete_then_not_found_witness :
  let a : value := VObj {[ "id" := VNum 1; "name" := VStr "Wash" ]} in
  let b : value := VObj {[ "id" := VNum 2; "name" := VStr "Cut" ]} in
  let iso := "2023-11-14T22:13:20.000Z" in
  let fs : files := {[ "data/services.json" := Json (VArr [a; b]) ]} in
  ∃ fs',
    delete "services" (VNum 1) fs = Ok (true, fs') ∧
    findById "services" (VNum 1) fs' = Ok (None, fs') ∧
    update iso "services" (VNum 1) (VObj {[ "name" := VStr "Dye" ]}) fs'
      = Ok (VNull, fs') ∧
    delete "services" (VNum 1) fs' = Ok (false, fs').
Proof.
  intros a b iso fs.
  apply (delete_then_not_found iso "services" (VNum 1) _ [a; b] fs);
    reflexivity.
Defined.

Lemma merged_keeps_id iso (existing partial : obj) :
  partial !! "id" = None →
  merged iso (Some (VObj existing)) (VObj partial) !! "id" = existing !! "id".
Proof.
  intros Hid. unfold merged. simpl.
  by rewrite lookup_insert_ne, lookup_union_r.
Qed.

Lemma merged_again iso1 iso2 (existing partial : obj) :
  merged iso2 (Some (VObj (merged iso1 (Some (VObj existing)) (VObj partial))))
    (VObj partial)
  = <["updated_at" := VStr iso2]>
      (merged iso1 (Some (VObj existing)) (VObj partial)).
Proof.
  unfold merged. simpl. apply map_eq. intros field.
  destruct (decide (field = "updated_at")) as [->|Hne];
    [by rewrite !lookup_insert_eq|].
  rewrite !lookup_insert_ne, !lookup_union by done.
  rewrite lookup_insert_ne, lookup_union by done.
  by destruct (partial !! field), (existing !! field).
Qed.

Lemma update_first_match iso id (existing partial : obj) data pre post :
  first_match id data pre (VObj existing) post →
  partial !! "id" = None →
  first_match id
    (pre ++ VObj (merged iso (Some (VObj existing)) (VObj partial)) :: post)
    pre (VObj (merged iso (Some (VObj existing)) (VObj partial))) post.
Proof.
  intros (-> & Hpre & Hitem) Hid. split; [done|]. split; [done|].
  unfold id_matches in *. simpl in *. by rewrite merged_keeps_id.
Qed.

(** A record just updated is found under the same id, provided the
    partial fields do not themselves carry an [id]: [findById] returns the
    merged record that [update] returned. *)
Theorem update_then_findById
    (iso table : string) (id : value) (existing partial : obj)
    (data pre post : list value) (fs : files) :
  read table fs = Ok (VArr data, fs) →
  first_match id data pre (VObj existing) post →
  partial !! "id" = None →
  ∃ stored fs',
    update iso table id (VObj partial) fs = Ok (VObj stored, fs') ∧
    findById table id fs' = Ok (Some (VObj stored), fs').
Proof.
  intros Hr Hfirst Hid.
  destruct (first_match_known _ _ _ _ _ _ _ Hr Hfirst) as [file Hf].
  eexists _, _.
  split; [by apply (update_first table file data fs Hf Hr iso id
                      (VObj partial) pre (VObj existing) post)|].
  apply (findById_found table id _ pre _ post _
           (read_after_write table file _ fs Hf)).
  by apply (update_first_match iso id existing partial data).
Qed.

Lemma update_then_findById_witness :
  let existing : obj := {[ "id" := VNum 5; "status" := VStr "pending" ]} in
  let partial : obj := {[ "status" := VStr "confirmed" ]} in
  let iso := "2023-11-14T22:13:20.000Z" in
  let fs : files := {[ "data/bookings.json" := Json (VArr [VObj existing]) ]} in
  ∃ stored fs',
    update iso "bookings" (VNum 5) (VObj partial) fs = Ok (VObj stored, fs') ∧
    findById "bookings" (VNum 5) fs' = Ok (Some (VObj stored), fs').
Proof.
  intros existing partial iso fs.
  apply (update_then_findById iso "bookings" (VNum 5) existing partial
           [VObj existing] [] [] fs).
  - reflexivity.
  - split; [reflexivity|]. split; [constructor|reflexivity].
  - reflexivity.
Defined.

(** Repeating an update changes nothing but the timestamp: when the
    partial fields carry no [id], a second [update] with the same fields
    finds the same record and stores the first result with [updated_at]
    set anew; with the same clock text the files stay as they were. *)
Theorem update_twice
    (iso1 iso2 table : string) (id : value) (existing partial : obj)
    (data pre post : list value) (fs : files) :
  read table fs = Ok (VArr data, fs) →
  first_match id data pre (VObj existing) post →
  partial !! "id" = None →
  ∃ stored fs1 fs2,
    update iso1 table id (VObj partial) fs = Ok (VObj stored, fs1) ∧
    update iso2 table id (VObj partial) fs1
      = Ok (VObj (<["updated_at" := VStr iso2]> stored), fs2) ∧
    read table fs2
      = Ok (VArr (pre ++ VObj (<["updated_at" := VStr iso2]> stored) :: post),
            fs2) ∧
    (iso2 = iso1 → fs2 = fs1).
Proof.
  intros Hr Hfirst Hid.
  destruct (first_match_known _ _ _ _ _ _ _ Hr Hfirst) as [file Hf].
  set (stored := merged iso1 (Some (VObj existing)) (VObj partial)).
  set (fs1 := <[file := Json (VArr (pre ++ VObj stored :: post))]> fs).
  exists stored, fs1,
    (<[file := Json (VArr (pre ++ VObj (<["updated_at" := VStr iso2]> stored)
                                 :: post))]> fs1).
  split; [by apply (update_first table file data fs Hf Hr iso1 id
                      (VObj partial) pre (VObj existing) post)|].
  split; [|split; [by apply read_after_write|]].
  - pose proof (merged_again iso1 iso2 existing partial) as Hagain.
    fold stored in Hagain. rewrite <- Hagain.
    apply (update_first table file _ fs1 Hf
             (read_after_write table file _ fs Hf) iso2 id (VObj partial)
             pre (VObj stored) post).
    by apply (update_first_match iso1 id existing partial data).
  - intros ->. unfold fs1, stored, merged. rewrite insert_insert_eq. simpl.
    by rewrite insert_insert_eq.
Qed.

Lemma update_twice_witness :
  let existing : obj := {[ "id" := VNum 5; "status" := VStr "pending" ]} in
  let partial : obj := {[ "status" := VStr "confirmed" ]} in
  let iso1 := "2023-11-14T22:13:20.000Z" in
  let iso2 := "2023-11-14T22:13:21.000Z" in
  let fs : files := {[ "data/bookings.json" := Json (VArr [VObj existing]) ]} in
  ∃ stored fs1 fs2,
    update iso1 "bookings" (VNum 5) (VObj partial) fs = Ok (VObj stored, fs1) ∧
    update iso2 "bookings" (VNum 5) (VObj partial) fs1
      = Ok (VObj (<["updated_at" := VStr iso2]> stored), fs2) ∧
    read "bookings" fs2
      = Ok (VArr ([] ++ VObj (<["updated_at" := VStr iso2]> stored) :: []),
            fs2) ∧
    (iso2 = iso1 → fs2 = fs1).
Proof.
  intros existing partial iso1 iso2 fs.
  apply (update_twice iso1 iso2 "bookings" (VNum 5) existing partial
           [VObj existing] [] [] fs).
  - reflexivity.
  - split; [reflexivity|]. split; [constructor|reflexivity].
  - reflexivity.
Defined.

(** *** What makes a scan throw, and what does not *)

Lemma scan_throws id pre post :
  no_match id pre →
  find (id_matches id) (pre ++ VNull :: post) = Throw TypeError ∧
  findIndex (id_matches id) (pre ++ VNull :: post) = Throw TypeError.
Proof.
  intros Hpre. unfold findIndex. generalize 0.
  induction Hpre as [|x pre Hx _ IH]; intros i; simpl; [done|].
  rewrite Hx. simpl. apply IH.
Qed.

(** A null element in the table's array makes every scan that reaches it
    throw: when no record ahead of it matches the id, [findById], [update]
    and [delete] throw a TypeError, and write nothing. *)
Theorem null_element_breaks_scans
    (iso table : string) (id updates : value) (data pre post : list value)
    (fs : files) :
  read table fs = Ok (VArr data, fs) →
  data = pre ++ VNull :: post →
  no_match id pre →
  findById table id fs = Throw TypeError ∧
  update iso table id updates fs = Throw TypeError ∧
  delete table id fs = Throw TypeError.
Proof.
  intros Hr -> Hpre. destruct (scan_throws id pre post Hpre) as [Hfind Hindex].
  unfold findById, update, delete, mbind, M_bind. rewrite Hr. simpl.
  by rewrite Hfind, Hindex.
Qed.

Lemma null_element_breaks_scans_witness :
  let a : value := VObj {[ "id" := VNum 1 ]} in
  let b : value := VObj {[ "id" := VNum 2 ]} in
  let iso := "2023-11-14T22:13:20.000Z" in
  let fs : files := {[ "data/gallery.json" := Json (VArr [a; VNull; b]) ]} in
  findById "gallery" (VNum 2) fs = Throw TypeError ∧
  update iso "gallery" (VNum 2) (VObj ∅) fs = Throw TypeError ∧
  delete "gallery" (VNum 2) fs = Throw TypeError.
Proof.
  intros a b iso fs.
  apply (null_element_breaks_scans iso "gallery" (VNum 2) _ [a; VNull; b]
           [a] [b] fs).
  - reflexivity.
  - reflexivity.
  - repeat constructor.
Defined.

Lemma id_matches_primitive id item :
  primitive id → has_primitive_id item → ∃ b, id_matches id item = Ok b.
Proof.
  intros Hid (m & -> & Hm). unfold id_matches. simpl.
  destruct (m !! "id") as [v|]; simpl in Hm;
    [destruct v; try done|]; destruct id; try done;
    unfold loosely_equal; simpl; eauto.
Qed.

Lemma scan_cases id data :
  Forall (λ item, ∃ b, id_matches id item = Ok b) data →
  no_match id data ∨ ∃ pre item post, first_match id data pre item post.
Proof.
  induction 1 as [|x data [b Hx] _ IH]; [left; constructor|].
  destruct b; [right; by exists [], x, data; repeat split; try constructor|].
  destruct IH as [Hno|(pre & item & post & -> & Hpre & Hitem)].
  - left. by constructor.
  - right. exists (x :: pre), item, post. split; [done|].
    split; [by constructor|done].
Qed.

(** On a table of records whose ids are primitives (or missing), looked
    up with a primitive id, nothing throws: [findById], [update] and
    [delete] all return. *)
Theorem scans_of_primitive_ids_return
    (iso table : string) (id updates : value) (data : list value)
    (fs : files) :
  read table fs = Ok (VArr data, fs) →
  Forall has_primitive_id data →
  primitive id →
  (∃ found, findById table id fs = Ok (found, fs)) ∧
  (∃ r fs', update iso table id updates fs = Ok (r, fs')) ∧
  (∃ b fs', delete table id fs = Ok (b, fs')).
Proof.
  intros Hr Hdata Hid.
  destruct (scan_cases id data) as [Hno|(pre & item & post & Hfirst)].
  { eapply Forall_impl; [done|]. intros item. by apply id_matches_primitive. }
  - split; [exists None; by eapply findById_not_found|].
    split; [eexists _, _; by eapply update_not_found|].
    eexists _, _. by eapply delete_none.
  - destruct (first_match_known _ _ _ _ _ _ _ Hr Hfirst) as [file Hf].
    split; [exists (Some item); by eapply findById_found|].
    split; eexists _, _.
    + by apply (update_first table file data fs Hf Hr iso id updates
                  pre item post).
    + by apply (delete_first table file data fs Hf Hr id pre item post).
Qed.

Lemma scans_of_primitive_ids_return_witness :
  let a : value := VObj {[ "id" := VStr "abc"; "name" := VStr "Wash" ]} in
  let b : value := VObj {[ "name" := VStr "no id" ]} in
  let iso := "2023-11-14T22:13:20.000Z" in
  let fs : files := {[ "data/services.json" := Json (VArr [a; b]) ]} in
  (∃ found, findById "services" (VBool true) fs = Ok (found, fs)) ∧
  (∃ r fs', update iso "services" (VBool true) (VObj ∅) fs = Ok (r, fs')) ∧
  (∃ b fs', delete "services" (VBool true) fs = Ok (b, fs')).
Proof.
  intros a b iso fs.
  apply (scans_of_primitive_ids_return iso "services" (VBool true) _ [a; b]).
  - reflexivity.
  - constructor; [|constructor; [|constructor]]; eexists; by split.
  - exact I.
Defined.

(** *** Two inserts in one millisecond *)

(** Two inserts that read the same millisecond give two records with the
    same id.  [findById] then returns the first of them; [delete] removes
    the first and leaves the second, which is then the one found. *)
Theorem same_millisecond_inserts
    (now : Z) (iso1 iso2 table : string) (r1 r2 : obj) (data : list value)
    (fs : files) :
  is_Some (dbFiles table) →
  read table fs = Ok (VArr data, fs) →
  no_match (VNum now) data →
  ∃ s1 s2 fs1 fs2 fs3,
    insert now iso1 table r1 fs = Ok (s1, fs1) ∧
    insert now iso2 table r2 fs1 = Ok (s2, fs2) ∧
    s1 !! "id" = Some (VNum now) ∧ s2 !! "id" = Some (VNum now) ∧
    read table fs2 = Ok (VArr (data ++ [VObj s1; VObj s2]), fs2) ∧
    findById table (VNum now) fs2 = Ok (Some (VObj s1), fs2) ∧
    delete table (VNum now) fs2 = Ok (true, fs3) ∧
    read table fs3 = Ok (VArr (data ++ [VObj s2]), fs3) ∧
    findById table (VNum now) fs3 = Ok (Some (VObj s2), fs3).
Proof.
  intros [file Hf] Hr Hno.
  set (s1 := <["created_at" := VStr iso1]> (<["id" := VNum now]> r1)).
  set (s2 := <["created_at" := VStr iso2]> (<["id" := VNum now]> r2)).
  assert (s1 !! "id" = Some (VNum now)) as Hs1
    by (unfold s1; by rewrite lookup_insert_ne, lookup_insert_eq).
  assert (s2 !! "id" = Some (VNum now)) as Hs2
    by (unfold s2; by rewrite lookup_insert_ne, lookup_insert_eq).
  assert (∀ s : obj, s !! "id" = Some (VNum now) →
            id_matches (VNum now) (VObj s) = Ok true) as Hmatch.
  { intros s Hs. unfold id_matches. simpl. rewrite Hs.
    unfold loosely_equal. simpl. by rewrite Z.eqb_refl. }
  set (fs1 := <[file := Json (VArr (data ++ [VObj s1]))]> fs).
  set (fs2 := <[file := Json (VArr ((data ++ [VObj s1]) ++ [VObj s2]))]> fs1).
  set (fs3 := <[file := Json (VArr (data ++ [VObj s2]))]> fs2).
  assert (read table fs1 = Ok (VArr (data ++ [VObj s1]), fs1)) as Hr1
    by by apply read_after_write.
  assert (read table fs2 = Ok (VArr (data ++ [VObj s1; VObj s2]), fs2)) as Hr2.
  { unfold fs2. rewrite <- app_assoc. by apply read_after_write. }
  assert (first_match (VNum now) (data ++ [VObj s1; VObj s2]) data (VObj s1)
            [VObj s2]) as Hfirst by by repeat split; auto.
  exists s1, s2, fs1, fs2, fs3.
  split; [by apply insert_ok|]. split; [by apply insert_ok|].
  split; [done|]. split; [done|]. split; [done|].
  split; [by eapply findById_found|].
  split; [by apply (delete_first table file _ fs2 Hf Hr2 (VNum now) data
                      (VObj s1) [VObj s2])|].
  assert (read table fs3 = Ok (VArr (data ++ [VObj s2]), fs3)) as Hr3
    by by apply read_after_write.
  split; [done|].
  apply (findById_found table (VNum now) _ data (VObj s2) [] fs3 Hr3).
  by repeat split; auto.
Qed.

Lemma same_millisecond_inserts_witness :
  let fs : files := {[ "data/bookings.json" := Json (VArr []) ]} in
  ∃ s1 s2 fs1 fs2 fs3,
    insert 1700000000000 "2023-11-14T22:13:20.000Z" "bookings"
      {[ "customer_name" := VStr "Ada" ]} fs = Ok (s1, fs1) ∧
    insert 1700000000000 "2023-11-14T22:13:20.000Z" "bookings"
      {[ "customer_name" := VStr "Bea" ]} fs1 = Ok (s2, fs2) ∧
    s1 !! "id" = Some (VNum 1700000000000) ∧
    s2 !! "id" = Some (VNum 1700000000000) ∧
    read "bookings" fs2 = Ok (VArr ([] ++ [VObj s1; VObj s2]), fs2) ∧
    findById "bookings" (VNum 1700000000000) fs2 = Ok (Some (VObj s1), fs2) ∧
    delete "bookings" (VNum 1700000000000) fs2 = Ok (true, fs3) ∧
    read "bookings" fs3 = Ok (VArr ([] ++ [VObj s2]), fs3) ∧
    findById "bookings" (VNum 1700000000000) fs3 = Ok (Some (VObj s2), fs3).
Proof.
  intros fs.
  apply (same_millisecond_inserts 1700000000000 _ _ "bookings" _ _ [] fs).
  - exists "data/bookings.json". reflexivity.
  - reflexivity.
  - constructor.
Defined.

(** *** Initialisation, seen through the store *)

(** Initialisation is invisible to [read]: every table reads after it
    exactly as it read before it, whether its file existed, was missing or
    was malformed. *)
Theorem init_invisible_to_read (fs : files) :
  ∃ fs1,
    init fs = Ok ((), fs1) ∧
    ∀ table, ∃ v, read table fs = Ok (v, fs) ∧ read table fs1 = Ok (v, fs1).
Proof.
  eexists. split; [apply init_result|]. intros table.
  exists (table_value fs table). rewrite !read_table_value. split; [done|].
  do 2 f_equal. unfold table_value.
  destruct (dbFiles table) as [file|] eqn:Hf; [|done].
  rewrite lookup_union. destruct (fs !! file) as [c|] eqn:Hc.
  - by destruct (empty_tables (dbFiles_entries.*2) !! file).
  - rewrite empty_tables_lookup.
    by rewrite decide_True by by eapply dbFiles_elem.
Qed.

(** On a fresh storage location, one where no table file exists yet,
    initialisation creates all seven files and every known table then
    reads as the empty array. *)
Theorem fresh_storage_reads_empty (fs : files) :
  (∀ table file, dbFiles table = Some file → fs !! file = None) →
  ∃ fs1,
    init fs = Ok ((), fs1) ∧
    ∀ table file, dbFiles table = Some file →
      fs1 !! file = Some (Json (VArr [])) ∧
      read table fs1 = Ok (VArr [], fs1).
Proof.
  intros Hfresh. eexists. split; [apply init_result|]. intros table file Hf.
  assert ((fs ∪ empty_tables (dbFiles_entries.*2)) !! file
          = Some (Json (VArr []))) as Hfile.
  { rewrite lookup_union_r by by eapply Hfresh.
    rewrite empty_tables_lookup.
    by rewrite decide_True by by eapply dbFiles_elem. }
  split; [done|]. rewrite read_table_value. unfold table_value.
  by rewrite Hf, Hfile.
Qed.

Lemma fresh_storage_reads_empty_witness :
  let fs : files := {[ "uploads/1700000000000-42.png" := Malformed "PNG" ]} in
  ∃ fs1,
    init fs = Ok ((), fs1) ∧
    ∀ table file, dbFiles table = Some file →
      fs1 !! file = Some (Json (VArr [])) ∧
      read table fs1 = Ok (VArr [], fs1).
Proof.
  intros fs. apply fresh_storage_reads_empty.
  intros table file Hf. apply dbFiles_elem in Hf.
  apply lookup_singleton_None. intros <-. vm_compute in Hf.
  repeat (apply elem_of_cons in Hf as [Hf|Hf]; [discriminate|]).
  by apply elem_of_nil in Hf.
Defined.

(** ** The id a route handler passes *)

Lemma list_ascii_of_string_app s1 s2 :
  String.list_ascii_of_string (s1 +:+ s2)
  = String.list_ascii_of_string s1 ++ String.list_ascii_of_string s2.
Proof. induction s1 as [|a s1 IH]; simpl; [done|]. by rewrite IH. Qed.

Lemma trim_left_no_ws a l : is_ws a = false → trim_left (a :: l) = a :: l.
Proof. intros Ha. simpl. by rewrite Ha. Qed.

(** The digits [NumberToString] prints for the absolute value. *)
Lemma NumberToString_digits n :
  ∃ d, Forall is_digit d ∧ d ≠ [] ∧ decimal_value 0 d = Z.abs n ∧
       String.list_ascii_of_string (NumberToString n)
       = if n <? 0 then "-"%char :: d else d.
Proof.
  destruct (digits_spec (Z.to_nat (Z.log2 (Z.abs n))) (Z.abs n))
    as (Hall & Hval & Hne).
  { split; [lia|]. rewrite Z2Nat.id by apply Z.log2_nonneg.
    destruct (decide (Z.abs n = 0)) as [->|]; [done|].
    apply Z.log2_spec. lia. }
  eexists. split; [exact Hall|]. split; [exact Hne|]. split; [exact Hval|].
  unfold NumberToString. by rewrite String.list_ascii_of_string_of_list_ascii.
Qed.

Lemma strip_prefix_digits d rest :
  Forall is_digit d → d ≠ [] → ends_number rest →
  strip_prefix (d ++ rest) = (10, d ++ rest).
Proof.
  intros Hd Hne Hrest. destruct Hd as [|a d Ha Hd]; [done|].
  unfold strip_prefix. simpl. destruct d as [|p d]; simpl.
  - destruct rest as [|p rest]; [done|]. destruct Hrest as (_ & -> & ->).
    by rewrite andb_false_r.
  - apply Forall_cons in Hd as [Hp _].
    rewrite !(is_digit_not_char _ p Hp) by lia. by rewrite andb_false_r.
Qed.

Lemma digit_run_digits negative d rest :
  Forall is_digit d → d ≠ [] → ends_number rest →
  digit_run negative 10 (d ++ rest)
  = Finite (if negative then - decimal_value 0 d else decimal_value 0 d).
Proof.
  intros Hd Hne Hrest. unfold digit_run.
  assert (read_digits 10 0 0 (d ++ rest)
          = (decimal_value 0 d, length d, rest)) as ->.
  { rewrite read_digits_app by done. destruct rest as [|a rest]; [done|].
    simpl. by destruct Hrest as (-> & _). }
  by destruct d.
Qed.

Lemma parseInt_NumberToString_then n suffix :
  ends_number (String.list_ascii_of_string suffix) →
  parseInt (NumberToString n +:+ suffix) = Finite n.
Proof.
  intros Hsuffix. unfold parseInt. rewrite list_ascii_of_string_app.
  destruct (NumberToString_digits n) as (d & Hd & Hne & Hval & ->).
  destruct (Z.ltb_spec n 0) as [Hneg|Hpos].
  - change (trim_left (("-"%char :: d) ++ String.list_ascii_of_string suffix))
      with ("-"%char :: d ++ String.list_ascii_of_string suffix).
    change (strip_sign ("-"%char :: d ++ String.list_ascii_of_string suffix))
      with (true, d ++ String.list_ascii_of_string suffix).
    cbv beta iota.
    rewrite strip_prefix_digits, digit_run_digits by done. f_equal. lia.
  - destruct d as [|a d]; [done|]. apply Forall_cons in Hd as Had.
    destruct Had as [Ha _].
    rewrite <- app_comm_cons, trim_left_no_ws by by apply is_digit_not_ws.
    unfold strip_sign. rewrite !(is_digit_not_char _ a Ha) by lia.
    rewrite app_comm_cons. cbv beta iota.
    rewrite strip_prefix_digits, digit_run_digits by done. f_equal. lia.
Qed.




Lemma find_rejects_all (p : value → result bool) (l : list value) :
  Forall (λ y, p y = Ok false) l → find p l = Ok None.
Proof. induction 1 as [|y l Hy _ IH]; simpl; [done|]. by rewrite Hy. Qed.

Lemma nan_matches_primitive item :
  has_primitive_id item → nan_matches item = Ok false.
Proof.
  intros (m & -> & Hm). unfold nan_matches. simpl.
  destruct (m !! "id") as [v|]; simpl in Hm; [by destruct v|done].
Qed.

(** A route parameter that [parseInt] cannot read (no digit after the
    optional white space and sign, as in "all" or "abc") reaches the store
    as NaN, which equals no id: on a table of records with primitive ids
    [findById] returns undefined, [update] null and [delete] false, and
    nothing is written. *)
Theorem param_without_digits_finds_nothing
    (iso table id : string) (updates : value) (data : list value)
    (fs : files) :
  read table fs = Ok (VArr data, fs) →
  Forall has_primitive_id data →
  parseInt id = NaN →
  findById_param table id fs = Ok (None, fs) ∧
  update_param iso table id updates fs = Ok (VNull, fs) ∧
  delete_param table id fs = Ok (false, fs).
Proof.
  intros Hr Hdata Hnan.
  assert (Forall (λ item, nan_matches item = Ok false) data) as Hno
    by (eapply Forall_impl; [done|apply nan_matches_primitive]).
  unfold findById_param, update_param, delete_param,
    findById_by, update_by, delete_by, mbind, M_bind.
  rewrite Hnan, Hr. simpl. unfold findIndex.
  by rewrite find_rejects_all, findIndex_from_none.
Qed.

Lemma param_without_digits_finds_nothing_witness :
  let a : value := VObj {[ "id" := VNum 1; "status" := VStr "pending" ]} in
  let iso := "2023-11-14T22:13:20.000Z" in
  let fs : files := {[ "data/bookings.json" := Json (VArr [a]) ]} in
  findById_param "bookings" "all" fs = Ok (None, fs) ∧
  update_param iso "bookings" "all" (VObj {[ "status" := VStr "done" ]}) fs
    = Ok (VNull, fs) ∧
  delete_param "bookings" "all" fs = Ok (false, fs).
Proof.
  intros a iso fs.
  apply (param_without_digits_finds_nothing iso "bookings" "all" _ [a] fs).
  - reflexivity.
  - constructor; [|constructor]. eexists. by split.
  - reflexivity.
Defined.

(** ** The login guard *)

Lemma get_own (m : attempts) email a : m !! email = Some a → get m email = Own a.
Proof. intros H. unfold get. by rewrite H. Qed.

Lemma get_plain (m : attempts) email :
  email ∉ Object_prototype → m !! email = None → get m email = Undefined.
Proof.
  intros Hplain H. unfold get. rewrite H. by rewrite bool_decide_false.
Qed.

Lemma recordFailedLogin_entry now email stored :
  email ∉ Object_prototype →
  parse (recordFailedLogin now email stored) !! email
  = Some (Attempt (from_option count 0 (parse stored !! email) + 1) now).
Proof.
  intros Hplain. unfold recordFailedLogin. simpl.
  destruct (parse stored !! email) as [a|] eqn:Ha.
  - rewrite (get_own _ _ _ Ha). by rewrite lookup_insert_eq.
  - rewrite (get_plain _ _ Hplain Ha). by rewrite lookup_insert_eq.
Qed.

Lemma recordFailedLogin_other now email other stored :
  other ≠ email →
  parse (recordFailedLogin now email stored) !! other = parse stored !! other.
Proof.
  intros Hne. unfold recordFailedLogin. simpl.
  destruct (get (parse stored) email); [|done|]; by rewrite lookup_insert_ne.
Qed.

(** A failed login is counted once, under the address exactly as given:
    for an address that is not the name of a member of Object.prototype,
    [recordFailedLogin] leaves that address with its count raised by one
    (from zero if it had none) and the clock reading as last attempt, and
    leaves every other address, however similar, as it was. *)
Theorem failed_login_is_counted (now : Z) (email : string) (stored : item) :
  email ∉ Object_prototype →
  ∃ a,
    parse (recordFailedLogin now email stored) !! email = Some a ∧
    count a = from_option count 0 (parse stored !! email) + 1 ∧
    lastAttempt a = now ∧
    ∀ other, other ≠ email →
      parse (recordFailedLogin now email stored) !! other
      = parse stored !! other.
Proof.
  intros Hplain. eexists. split; [by apply recordFailedLogin_entry|].
  split; [done|]. split; [done|]. intros other. apply recordFailedLogin_other.
Qed.

Lemma failed_login_is_counted_witness :
  let stored : item :=
    Some {[ "grantunua@gmail.com" := Attempt 2 1700000000000 ]} in
  ∃ a,
    parse (recordFailedLogin 1700000060000 "grantunua@gmail.com" stored)
      !! "grantunua@gmail.com" = Some a ∧
    count a = from_option count 0 (parse stored !! "grantunua@gmail.com") + 1 ∧
    lastAttempt a = 1700000060000 ∧
    ∀ other, other ≠ "grantunua@gmail.com" →
      parse (recordFailedLogin 1700000060000 "grantunua@gmail.com" stored)
        !! other = parse stored !! other.
Proof.
  intros stored. apply failed_login_is_counted.
  apply (bool_decide_unpack (_ ∉ _)). reflexivity.
Defined.

Lemma record_failures_entry times email stored :
  email ∉ Object_prototype →
  parse (record_failures times email stored) !! email
  = foldl (λ o t, Some (Attempt (from_option count 0 o + 1) t))
      (parse stored !! email) times.
Proof.
  intros Hplain. revert stored. unfold record_failures.
  induction times as [|t times IH]; intros stored; simpl; [done|].
  by rewrite IH, recordFailedLogin_entry.
Qed.

Lemma failures_fold c t0 times :
  foldl (λ o t, Some (Attempt (from_option count 0 o + 1) t))
    (Some (Attempt c t0)) times
  = Some (Attempt (c + Z.of_nat (length times)) (default t0 (last times))).
Proof.
  revert c t0. induction times as [|t times IH]; intros c t0; simpl.
  - f_equal. f_equal. lia.
  - rewrite IH. f_equal. f_equal; [lia|]. rewrite last_cons.
    by destruct (last times).
Qed.

Lemma failures_fold_none times t :
  last times = Some t →
  foldl (λ o t, Some (Attempt (from_option count 0 o + 1) t)) None times
  = Some (Attempt (Z.of_nat (length times)) t).
Proof.
  destruct times as [|t1 times]; [done|]. intros Hlast. simpl.
  rewrite failures_fold. f_equal. f_equal; [lia|].
  rewrite last_cons in Hlast. destruct (last times); simpl; congruence.
Qed.

(** The lockout threshold: for an address with no entry yet, after
    failed logins at the times [times], the last of them at [t],
    [checkLoginAttempts] refuses exactly when at least three failures were
    recorded and fewer than fifteen minutes have passed since the last
    one. *)
Theorem locked_after_three_failures
    (now t : Z) (email : string) (times : list Z) (stored : item) :
  email ∉ Object_prototype →
  parse stored !! email = None →
  last times = Some t →
  (checkLoginAttempts now email (record_failures times email stored)).1 = false
  ↔ (3 ≤ length times)%nat ∧ now - t < LOCKOUT_DURATION.
Proof.
  intros Hplain Hnone Hlast.
  pose proof (record_failures_entry times email stored Hplain) as Hentry.
  rewrite Hnone, (failures_fold_none times t Hlast) in Hentry.
  unfold checkLoginAttempts. rewrite (get_own _ _ _ Hentry). simpl.
  unfold MAX_LOGIN_ATTEMPTS.
  destruct (Z.leb_spec 3 (Z.of_nat (length times))) as [Hge|Hlt].
  - destruct (Z.ltb_spec (now - t) LOCKOUT_DURATION) as [Hin|Hout]; simpl.
    + split; [intros _; split; [lia|done]|done].
    + split; [done|]. intros [_ ?]. lia.
  - simpl. split; [done|]. intros [? _]. lia.
Qed.

Lemma locked_after_three_failures_witness :
  let times := [1700000000000; 1700000020000; 1700000040000] in
  (checkLoginAttempts 1700000900000 "grantunua@gmail.com"
     (record_failures times "grantunua@gmail.com" None)).1 = false
  ↔ (3 ≤ length times)%nat ∧
    1700000900000 - 1700000040000 < LOCKOUT_DURATION.
Proof.
  intros times.
  apply (locked_after_three_failures 1700000900000 1700000040000
           "grantunua@gmail.com" times None).
  - apply (bool_decide_unpack (_ ∉ _)). reflexivity.
  - reflexivity.
  - reflexivity.
Defined.

(** A lockout ends fifteen minutes after the last failure, and ends for
    good: the first [checkLoginAttempts] from then on returns true and
    removes the address's entry, other addresses untouched, so every later
    check returns true as well, until failures are recorded again. *)
Theorem lockout_expires
    (now : Z) (email : string) (a : attempt) (stored : item) :
  parse stored !! email = Some a →
  MAX_LOGIN_ATTEMPTS ≤ count a →
  LOCKOUT_DURATION ≤ now - lastAttempt a →
  ∃ stored',
    checkLoginAttempts now email stored = (true, stored') ∧
    parse stored' !! email = None ∧
    (∀ other, other ≠ email → parse stored' !! other = parse stored !! other) ∧
    ∀ later, checkLoginAttempts later email stored' = (true, stored').
Proof.
  intros Ha Hcount Hexpired. exists (Some (base.delete email (parse stored))).
  assert (parse (Some (base.delete email (parse stored))) !! email = None)
    as Hgone by apply lookup_delete_eq.
  split; [|split; [done|split]].
  - unfold checkLoginAttempts. rewrite (get_own _ _ _ Ha). simpl.
    rewrite (proj2 (Z.leb_le _ _) Hcount).
    by rewrite (proj2 (Z.ltb_ge _ _) Hexpired).
  - intros other Hne. simpl. by rewrite lookup_delete_ne.
  - intros later. unfold checkLoginAttempts, get. rewrite Hgone.
    by destruct (bool_decide _).
Qed.

Lemma lockout_expires_witness :
  let stored : item :=
    Some {[ "grantunua@gmail.com" := Attempt 3 1700000040000 ]} in
  ∃ stored',
    checkLoginAttempts 1700000940000 "grantunua@gmail.com" stored
      = (true, stored') ∧
    parse stored' !! "grantunua@gmail.com" = None ∧
    (∀ other, other ≠ "grantunua@gmail.com" →
       parse stored' !! other = parse stored !! other) ∧
    ∀ later,
      checkLoginAttempts later "grantunua@gmail.com" stored' = (true, stored').
Proof.
  intros stored.
  apply (lockout_expires 1700000940000 "grantunua@gmail.com"
           (Attempt 3 1700000040000) stored).
  - reflexivity.
  - unfold MAX_LOGIN_ATTEMPTS. simpl. lia.
  - unfold LOCKOUT_DURATION. simpl. lia.
Defined.

(** [clearLoginAttempts] lifts a lockout at once and touches nobody
    else: whatever was recorded, the next [checkLoginAttempts] for that
    address returns true, at any clock reading, and every other address
    keeps its entry. *)
Theorem clear_lifts_lockout (now : Z) (email : string) (stored : item) :
  checkLoginAttempts now email (clearLoginAttempts email stored)
    = (true, clearLoginAttempts email stored) ∧
  ∀ other, other ≠ email →
    parse (clearLoginAttempts email stored) !! other = parse stored !! other.
Proof.
  split.
  - unfold checkLoginAttempts, clearLoginAttempts, get. simpl.
    rewrite lookup_delete_eq. by destruct (bool_decide _).
  - intros other Hne. unfold clearLoginAttempts. simpl.
    by rewrite lookup_delete_ne.
Qed.

Lemma clear_lifts_lockout_witness :
  let stored : item := Some {[ "guest@example.com" := Attempt 3 1000 ]} in
  checkLoginAttempts 1001 "guest@example.com"
    (clearLoginAttempts "guest@example.com" stored)
    = (true, clearLoginAttempts "guest@example.com" stored) ∧
  ∀ other, other ≠ "guest@example.com" →
    parse (clearLoginAttempts "guest@example.com" stored) !! other
    = parse stored !! other.
Proof.
  exact (clear_lifts_lockout 1001 "guest@example.com"
           (Some {[ "guest@example.com" := Attempt 3 1000 ]})).
Defined.

Lemma code_lower_upper a :
  65 ≤ code a ≤ 90 → code (lower a) = code a + 32.
Proof.
  intros Ha. unfold lower.
  rewrite (proj2 (Z.leb_le 65 (code a))), (proj2 (Z.leb_le (code a) 90)) by lia.
  simpl. unfold code at 1. rewrite nat_ascii_embedding by lia. lia.
Qed.

Lemma lower_other a : ¬ 65 ≤ code a ≤ 90 → lower a = a.
Proof.
  intros Ha. unfold lower.
  destruct (Z.leb_spec 65 (code a)), (Z.leb_spec (code a) 90); simpl;
    try done; lia.
Qed.

Lemma lower_ws a : is_ws (lower a) = is_ws a.
Proof.
  destruct (decide (65 ≤ code a ≤ 90)) as [Ha|Ha];
    [|by rewrite (lower_other a Ha)].
  unfold is_ws. rewrite code_lower_upper by done.
  rewrite !(proj2 (Z.leb_gt _ 13)), !(proj2 (Z.eqb_neq _ 32)) by lia.
  by rewrite !andb_false_r.
Qed.

Lemma lower_idemp a : lower (lower a) = lower a.
Proof.
  destruct (decide (65 ≤ code a ≤ 90)) as [Ha|Ha];
    [|by rewrite !(lower_other a Ha)].
  apply lower_other. rewrite code_lower_upper by done. lia.
Qed.

Lemma trim_left_pad pad l :
  Forall (λ a, is_ws a = true) pad → trim_left (pad ++ l) = trim_left l.
Proof. induction 1 as [|a pad Ha _ IH]; simpl; [done|]. by rewrite Ha. Qed.

Lemma trim_left_app l pad :
  trim_left (l ++ pad)
  = match trim_left l with
    | [] => trim_left pad
    | _ => trim_left l ++ pad
    end.
Proof.
  induction l as [|a l IH]; [done|]. simpl.
  destruct (is_ws a); [exact IH|done].
Qed.

Lemma trim_pad pad1 l pad2 :
  Forall (λ a, is_ws a = true) pad1 → Forall (λ a, is_ws a = true) pad2 →
  trim (pad1 ++ l ++ pad2) = trim l.
Proof.
  intros H1 H2. unfold trim. rewrite trim_left_pad, trim_left_app by done.
  assert (trim_left pad2 = []) as Hpad2
    by (rewrite <- (app_nil_r pad2); by rewrite trim_left_pad).
  destruct (trim_left l) as [|a k]; [by rewrite Hpad2|].
  rewrite reverse_app. by rewrite trim_left_pad by by apply Forall_reverse.
Qed.

Lemma list_ascii_toLowerCase s :
  String.list_ascii_of_string (toLowerCase s)
  = lower <$> String.list_ascii_of_string s.
Proof.
  unfold toLowerCase. by rewrite String.list_ascii_of_string_of_list_ascii.
Qed.

(** The address check ignores letter case and surrounding white space,
    and nothing else: an address accepted or refused stays so when white
    space is put around it, and when it is written in lower case. *)
Theorem authorization_ignores_case_and_padding (email pad1 pad2 : string) :
  Forall (λ a, is_ws a = true) (String.list_ascii_of_string pad1) →
  Forall (λ a, is_ws a = true) (String.list_ascii_of_string pad2) →
  isAuthorizedEmail (pad1 +:+ email +:+ pad2) = isAuthorizedEmail email ∧
  isAuthorizedEmail (toLowerCase email) = isAuthorizedEmail email.
Proof.
  intros H1 H2. unfold isAuthorizedEmail, trim_string.
  rewrite !list_ascii_toLowerCase, !list_ascii_of_string_app, !fmap_app.
  split.
  - rewrite trim_pad; [done| |];
      (apply Forall_fmap; eapply Forall_impl; [done|]);
      intros a Ha; simpl; by rewrite lower_ws.
  - rewrite <- list_fmap_compose.
    by rewrite (list_fmap_ext (lower ∘ lower) lower)
      by (intros; apply lower_idemp).
Qed.

Lemma authorization_ignores_case_and_padding_witness :
  isAuthorizedEmail ("  " +:+ "GrantUnua@Gmail.com" +:+ " ")
    = isAuthorizedEmail "GrantUnua@Gmail.com" ∧
  isAuthorizedEmail (toLowerCase "GrantUnua@Gmail.com")
    = isAuthorizedEmail "GrantUnua@Gmail.com".
Proof.
  apply (authorization_ignores_case_and_padding "GrantUnua@Gmail.com" "  " " ");
    repeat constructor.
Defined.

(** ** The admin session *)

Lemma NumberToString_not_empty n : NumberToString n ≠ "".
Proof.
  intros Heq. apply (f_equal String.list_ascii_of_string) in Heq.
  destruct (NumberToString_digits n) as (d & _ & Hne & _ & Hd).
  rewrite Hd in Heq. simpl in Heq. by destruct (n <? 0).
Qed.

Lemma falsy_text t : t ≠ "" → falsy (Some t) = false.
Proof. by destruct t. Qed.

Lemma parseInt_NumberToString n : parseInt (NumberToString n) = Finite n.
Proof.
  pose proof (parseInt_NumberToString_then n "" I) as H.
  replace (NumberToString n +:+ "") with (NumberToString n) in H; [done|].
  generalize (NumberToString n). intros t.
  induction t as [|c t IH]; [done|].
  change (String c t +:+ "") with (String c (t +:+ "")). congruence.
Qed.

Lemma created_session_items token now adminData b :
  let s := sessionStorage (createSecureSession token now adminData b) in
  s !! "adminAuthenticated" = Some "true" ∧
  s !! "adminLoginTime" = Some (NumberToString now).
Proof.
  unfold createSecureSession. simpl. split.
  - rewrite !lookup_insert_ne by done.
    destruct token; [rewrite lookup_insert_ne by done|];
      apply lookup_insert_eq.
  - rewrite lookup_insert_ne by done. apply lookup_insert_eq.
Qed.

(** A session lasts two hours, to the millisecond: after
    [createSecureSession] at clock reading [start], with or without a
    token, [validateSession] returns true and changes nothing as long as no
    more than 7,200,000 ms have passed, and from then on returns false and
    clears the session. *)
Theorem session_lasts_two_hours
    (token : option string) (start now : Z) (adminData : string)
    (b : browser) :
  let created := createSecureSession token start adminData b in
  (now - start ≤ 7200000 → validateSession now created = (true, created)) ∧
  (7200000 < now - start →
     validateSession now created = (false, clearSession created)).
Proof.
  intros created.
  destruct (created_session_items token start adminData b) as [Hflag Htime].
  fold created in Hflag, Htime.
  unfold validateSession. rewrite Hflag, Htime.
  rewrite (falsy_text (NumberToString start))
    by apply NumberToString_not_empty.
  unfold elapsed. simpl. rewrite parseInt_NumberToString. simpl.
  split; intros H.
  - by rewrite (proj2 (Z.ltb_ge _ _)) by lia.
  - by rewrite (proj2 (Z.ltb_lt _ _)) by lia.
Qed.

Lemma session_lasts_two_hours_witness :
  let b := Browser ∅ {[ "tempAuthData" := "x" ]} in
  let created :=
    createSecureSession (Some "00ff") 1700000000000 "{}" b in
  validateSession 1700007200000 created = (true, created) ∧
  validateSession 1700007200001 created = (false, clearSession created).
Proof.
  intros b created. split.
  - apply (session_lasts_two_hours (Some "00ff") 1700000000000
             1700007200000 "{}" b). lia.
  - apply (session_lasts_two_hours (Some "00ff") 1700000000000
             1700007200001 "{}" b). lia.
Defined.

(** An expired session is wiped and stays invalid: when the login time
    read back is more than two hours old, [validateSession] returns false,
    empties sessionStorage and removes [tempAuthData] from localStorage,
    the other localStorage items untouched, and every later
    [validateSession] returns false whatever the clock says. *)
Theorem expired_session_is_wiped
    (now start : Z) (loginTime : string) (b : browser) :
  sessionStorage b !! "adminAuthenticated" = Some "true" →
  sessionStorage b !! "adminLoginTime" = Some loginTime →
  parseInt loginTime = Finite start →
  7200000 < now - start →
  ∃ b',
    validateSession now b = (false, b') ∧
    sessionStorage b' = ∅ ∧
    localStorage b' !! "tempAuthData" = None ∧
    (∀ key, key ≠ "tempAuthData" →
       localStorage b' !! key = localStorage b !! key) ∧
    ∀ later, validateSession later b' = (false, b').
Proof.
  intros Hflag Htime Hparse Hold. exists (clearSession b).
  split; [|split; [done|split; [apply lookup_delete_eq|split]]].
  - unfold validateSession. rewrite Hflag, Htime.
    rewrite (falsy_text loginTime) by (intros ->; discriminate Hparse).
    unfold elapsed. simpl. rewrite Hparse. simpl.
    by rewrite (proj2 (Z.ltb_lt _ _)) by lia.
  - intros key Hne. simpl. by rewrite lookup_delete_ne.
  - done.
Qed.

Lemma expired_session_is_wiped_witness :
  let b :=
    Browser {[ "adminAuthenticated" := "true";
               "adminLoginTime" := "1700000000000" ]}
            {[ "tempAuthData" := "x"; "loginAttempts" := "{}" ]} in
  ∃ b',
    validateSession 1700007200001 b = (false, b') ∧
    sessionStorage b' = ∅ ∧
    localStorage b' !! "tempAuthData" = None ∧
    (∀ key, key ≠ "tempAuthData" →
       localStorage b' !! key = localStorage b !! key) ∧
    ∀ later, validateSession later b' = (false, b').
Proof.
  intros b.
  apply (expired_session_is_wiped 1700007200001 1700000000000
           "1700000000000" b); [reflexivity|reflexivity|reflexivity|lia].
Defined.

(** A login time that [parseInt] cannot read never expires: with
    [adminAuthenticated] set to "true" and a non-empty [adminLoginTime]
    that does not start with a number, [validateSession] returns true at
    every clock reading and changes nothing. *)
Theorem unreadable_login_time_never_expires
    (now : Z) (loginTime : string) (b : browser) :
  sessionStorage b !! "adminAuthenticated" = Some "true" →
  sessionStorage b !! "adminLoginTime" = Some loginTime →
  loginTime ≠ "" →
  parseInt loginTime = NaN →
  validateSession now b = (true, b).
Proof.
  intros Hflag Htime Hne Hparse. unfold validateSession.
  rewrite Hflag, Htime. rewrite (falsy_text loginTime) by done.
  unfold elapsed. simpl. by rewrite Hparse.
Qed.

Lemma unreadable_login_time_never_expires_witness :
  let b :=
    Browser {[ "adminAuthenticated" := "true";
               "adminLoginTime" := "yesterday" ]} ∅ in
  validateSession 9999999999999 b = (true, b).
Proof.
  intros b.
  apply (unreadable_login_time_never_expires 9999999999999 "yesterday" b);
    [reflexivity|reflexivity|discriminate|reflexivity].
Defined.

(** ** The session token *)

Lemma byte_text (b : Z) :
  0 ≤ b ≤ 255 →
  ∃ x y,
    padStart 2 "0"%char (toString16 b) = [x; y] ∧
    default 0 (digit_val 16 x) * 16 + default 0 (digit_val 16 y) = b ∧
    (is_digit x ∨ 97 ≤ code x ≤ 102) ∧ (is_digit y ∨ 97 ≤ code y ≤ 102).
Proof.
  intros Hb.
  set (hex := λ a : ascii,
         (48 <=? code a) && (code a <=? 57) ||
         (97 <=? code a) && (code a <=? 102)).
  set (good := λ b : Z,
         match padStart 2 "0"%char (toString16 b) with
         | [x; y] =>
             (default 0 (digit_val 16 x) * 16 +
                default 0 (digit_val 16 y) =? b) && hex x && hex y
         | _ => false
         end).
  assert (Hall : forallb good (seqZ 0 256) = true) by (vm_compute; reflexivity).
  assert (Hgood : good b = true).
  { eapply forallb_forall; [exact Hall|].
    apply list_elem_of_In, elem_of_seqZ. lia. }
  unfold good in Hgood.
  destruct (padStart 2 "0"%char (toString16 b)) as [|x [|y [|? ?]]];
    try discriminate Hgood.
  exists x, y. unfold hex, is_digit in *. split; [done|]. lia.
Qed.

(** The session token spells the random bytes: for bytes between 0 and
    255, as a Uint8Array holds them, [generateSecureToken] gives two
    characters per byte, all of them lower-case hexadecimal digits, from
    which the bytes read back in order (so different bytes give different
    tokens). *)
Theorem token_spells_its_bytes (bytes : list Z) :
  Forall (λ b, 0 ≤ b ≤ 255) bytes →
  let token := String.list_ascii_of_string (generateSecureToken bytes) in
  length token = (2 * length bytes)%nat ∧
  Forall (λ a, is_digit a ∨ 97 ≤ code a ≤ 102) token ∧
  token_bytes token = bytes.
Proof.
  intros Hbytes. unfold generateSecureToken.
  rewrite String.list_ascii_of_string_of_list_ascii.
  induction Hbytes as [|b bytes Hb _ (Hlen & Hhex & Hback)];
    [split; [done|split; [constructor|done]]|].
  destruct (byte_text b Hb) as (x & y & Htext & Hvalue & Hx & Hy).
  rewrite fmap_cons. simpl mjoin. rewrite Htext.
  split; [simpl; simpl in Hlen; lia|].
  split; [simpl; constructor; [exact Hx|constructor; [exact Hy|exact Hhex]]|].
  simpl. by rewrite Hvalue, Hback.
Qed.

Lemma token_spells_its_bytes_witness :
  let token :=
    String.list_ascii_of_string (generateSecureToken [0; 10; 171; 255]) in
  length token = 8%nat ∧
  Forall (λ a, is_digit a ∨ 97 ≤ code a ≤ 102) token ∧
  token_bytes token = [0; 10; 171; 255].
Proof.
  apply (token_spells_its_bytes [0; 10; 171; 255]).
  repeat constructor; lia.
Defined.

Example generateSecureToken_pads :
  generateSecureToken [0; 10; 171; 255] = "000aabff".
Proof. reflexivity. Qed.

(** ** The violation log *)

Lemma recent_from_length i clock l :
  (length (recent_from i clock l) ≤ length l)%nat.
Proof.
  revert i. induction l as [|v l IH]; intros i; simpl; [lia|].
  specialize (IH (S i)).
  destruct (clock i - timestamp v <? 300000); simpl; lia.
Qed.

(** The violation log keeps the last fifty entries: whatever log was
    stored, [handleSecurityViolation] stores a log that ends with the new
    violation, is the end of the old log followed by the new violation,
    and holds fifty entries at most; it sends the page back to the main
    site only when the old log had three entries or more. *)
Theorem violation_log_keeps_last_fifty
    (kind : string) (now : Z) (agent href : string) (clock : nat → Z)
    (stored : option (list violation)) :
  let entry := Violation kind now agent href in
  let old := default [] stored in
  let outcome := handleSecurityViolation kind now agent href clock stored in
  ∃ log,
    outcome.2 = Some log ∧
    length log = (50 `min` S (length old))%nat ∧
    last log = Some entry ∧
    log `suffix_of` old ++ [entry] ∧
    (outcome.1 = true → (3 ≤ length old)%nat).
Proof.
  intros entry old outcome. unfold outcome, handleSecurityViolation.
  fold old. fold entry. simpl.
  set (log := if (50 <? length (old ++ [entry]))%nat
              then drop (length (old ++ [entry]) - 50) (old ++ [entry])
              else old ++ [entry]).
  assert (Hlength : length (old ++ [entry]) = S (length old))
    by (rewrite length_app; simpl; lia).
  assert (Hlog : length log = (50 `min` S (length old))%nat ∧
                 last log = Some entry ∧ log `suffix_of` old ++ [entry]).
  { unfold log. destruct (50 <? length (old ++ [entry]))%nat eqn:Hlong.
    - apply Nat.ltb_lt in Hlong.
      split; [rewrite length_drop; lia|].
      split; [|apply suffix_drop].
      rewrite drop_app_le by lia. apply last_snoc.
    - apply Nat.ltb_ge in Hlong. split; [lia|].
      split; [apply last_snoc|done]. }
  destruct Hlog as (Hlen & Hlast & Hsuffix).
  exists log. split; [done|]. split; [done|]. split; [done|].
  split; [done|]. intros Hredirect. apply Nat.ltb_lt in Hredirect.
  pose proof (recent_from_length 0 clock log). lia.
Qed.

Lemma violation_log_keeps_last_fifty_witness :
  let entry := Violation "devtools" 8 "agent" "/admin" in
  let old := replicate 50 (Violation "devtools" 7 "agent" "/admin") in
  let outcome :=
    handleSecurityViolation "devtools" 8 "agent" "/admin" (λ _, 9)
      (Some old) in
  ∃ log,
    outcome.2 = Some log ∧
    length log = (50 `min` S (length old))%nat ∧
    last log = Some entry ∧
    log `suffix_of` old ++ [entry] ∧
    (outcome.1 = true → (3 ≤ length old)%nat).
Proof.
  exact (violation_log_keeps_last_fifty "devtools" 8 "agent" "/admin"
           (λ _, 9)
           (Some (replicate 50 (Violation "devtools" 7 "agent" "/admin")))).
Defined.

Example violation_log_drops_the_oldest :
  let v := Violation "Developer tools" 7 "agent" "/admin" in
  (handleSecurityViolation "Right click" 8 "agent" "/admin" (λ _, 0)
     (Some (replicate 50 v))).2 =
  Some (replicate 49 v ++ [Violation "Right click" 8 "agent" "/admin"]).
Proof. reflexivity. Qed.
